(** * bbgo: the sync command, the FTX stream and the KuCoin order commands

    A shallow embedding of [pkg/cmd/sync.go] (symbol discovery, the sync
    orchestrator and start-time resolution), of the FTX [Stream]
    (Connect / SetPublicOnly / Subscribe / Close) and of the KuCoin example
    command [orders cancel], followed by the properties proved about them.

    Go values are modelled as follows: [string] is a Rocq [string] (a byte
    sequence), a returned [error] is an [option error], a [(value, error)]
    pair is a sum [error + value], a Go [map] is a stdpp [gmap], and calls
    to collaborators that live outside these files are recorded in a trace
    of events whose outcomes are given by an oracle over the history. *)

From Stdlib Require Import ZArith Ascii String List Bool Lia.
From stdpp Require Import base option list gmap strings fin_maps.

Import ListNotations.
Local Open Scope string_scope.
Local Open Scope list_scope.
Local Open Scope Z_scope.

(** ** Errors and the trace monad *)

(** A Go [error] value is represented by its message. *)
Definition error := string.

(** Computations that may call collaborators: they extend a trace of
    events (oldest first) and either fail with an error or return. *)
Definition M (Ev A : Type) : Type := list Ev -> (error + A) * list Ev.

Definition ret {Ev A} (a : A) : M Ev A := fun tr => (inr a, tr).

Definition throw {Ev A} (e : error) : M Ev A := fun tr => (inl e, tr).

Definition bind {Ev A B} (c : M Ev A) (k : A -> M Ev B) : M Ev B :=
  fun tr =>
    match c tr with
    | (inl e, tr') => (inl e, tr')
    | (inr a, tr') => k a tr'
    end.

Notation "x <- c ;; k" := (bind c (fun x => k))
  (at level 100, c at next level, right associativity).
Notation "c ;;; k" := (bind c (fun _ => k))
  (at level 100, right associativity).

(** [if err := f(); err != nil { return err }] *)
Definition check {Ev} (r : option error) : M Ev unit :=
  match r with
  | Some e => throw e
  | None => ret tt
  end.

(** [v, err := f(); if err != nil { return err }] *)
Definition try {Ev A} (r : error + A) : M Ev A :=
  match r with
  | inl e => throw e
  | inr a => ret a
  end.

(** [for _, x := range xs { if err := body(x); err != nil { return err } }] *)
Fixpoint forRange {Ev A} (xs : list A) (body : A -> M Ev unit) : M Ev unit :=
  match xs with
  | [] => ret tt
  | x :: rest => body x ;;; forRange rest body
  end.

(** [len(s) > 0] on a Go string. *)
Definition nonEmpty (s : string) : bool := negb (String.eqb s "").

(** ** The part of Go's [time] package used by the sync command *)

Module GoTime.

(** Modelled from the spec: the [time] package ([time.Time],
    [time.LoadLocation], [time.ParseInLocation], [Time.AddDate]) is not
    under src/.  The spec fixes the zone as Asia/Taipei, UTC+8, the
    layout as a calendar date YYYY-MM-DD read as midnight local time, and
    the default as the invocation instant minus 3 calendar months. *)
Record Location := { locName : string; utcOffset : Z }.

(** Modelled from the spec: a time is a civil date and a time of day in
    a location. *)
Record Time := Date {
  year : Z; month : Z; day : Z;
  hour : Z; minute : Z; second : Z; nanosecond : Z;
  location : Location
}.

(** Modelled from the spec: Asia/Taipei is the fixed zone UTC+8. *)
Definition Taipei : Location :=
  {| locName := "Asia/Taipei"; utcOffset := 8 * 3600 |}.

(** Modelled from the spec: only the zone the command asks for is known. *)
Definition LoadLocation (name : string) : error + Location :=
  if String.eqb name "Asia/Taipei" then inr Taipei
  else inl ("unknown time zone " +:+ name).

(** The Gregorian calendar: leap years and the length of each month. *)
Definition isLeap (y : Z) : bool :=
  (y mod 4 =? 0) && (negb (y mod 100 =? 0) || (y mod 400 =? 0)).

Definition daysIn (m y : Z) : Z :=
  if m =? 2 then (if isLeap y then 29 else 28)
  else if (m =? 4) || (m =? 6) || (m =? 9) || (m =? 11) then 30
  else 31.

(** A month number outside 1..12 carries into the year. *)
Definition normalizeMonth (y m : Z) : Z * Z :=
  (y + (m - 1) / 12, (m - 1) mod 12 + 1).

(** A day outside the month carries into the months after or before it,
    one month at a time. *)
Fixpoint normalizeDay (fuel : nat) (y m d : Z) : Z * Z * Z :=
  match fuel with
  | O => (y, m, d)
  | S fuel' =>
      if d <? 1 then
        let '(y', m') := normalizeMonth y (m - 1) in
        normalizeDay fuel' y' m' (d + daysIn m' y')
      else if daysIn m y <? d then
        let '(y', m') := normalizeMonth y (m + 1) in
        normalizeDay fuel' y' m' (d - daysIn m y)
      else (y, m, d)
  end.

(** Modelled from the spec: [t.AddDate(years, months, days)] is calendar
    arithmetic on the date, at the same time of day in the same location:
    the years, months and days are added to the fields, months beyond the
    year carry into the year, and a day the resulting month does not have
    carries into the following month, as Go's [time.Date] normalises its
    arguments (one month after October 31 is December 1). *)
Definition AddDate (t : Time) (years months days : Z) : Time :=
  let '(y, m) := normalizeMonth (year t + years) (month t + months) in
  let d := day t + days in
  let '(y, m, d) := normalizeDay (S (Z.to_nat (Z.abs d))) y m d in
  Date y m d (hour t) (minute t) (second t) (nanosecond t) (location t).

(** The value of a decimal digit. *)
Definition digit (c : ascii) : option Z :=
  let n := Z.of_nat (nat_of_ascii c) in
  if (48 <=? n) && (n <=? 57) then Some (n - 48) else None.

(** The number written by a run of decimal digits, after [acc]. *)
Fixpoint number (acc : Z) (cs : list ascii) : option Z :=
  match cs with
  | [] => Some acc
  | c :: rest =>
      match digit c with
      | Some d => number (10 * acc + d) rest
      | None => None
      end
  end.

(** Modelled from the spec: a calendar date YYYY-MM-DD, four, two and
    two decimal digits separated by hyphens, naming an existing day. *)
Definition parseDate (value : string) : option (Z * Z * Z) :=
  match list_ascii_of_string value with
  | [y1; y2; y3; y4; s1; m1; m2; s2; d1; d2] =>
      if Ascii.eqb s1 "-" && Ascii.eqb s2 "-" then
        match number 0 [y1; y2; y3; y4], number 0 [m1; m2], number 0 [d1; d2] with
        | Some y, Some m, Some d =>
            if (1 <=? m) && (m <=? 12) && (1 <=? d) && (d <=? daysIn m y)
            then Some (y, m, d) else None
        | _, _, _ => None
        end
      else None
  | _ => None
  end.

(** Modelled from the spec: parsing with the date layout yields midnight
    local time on that date in the given location. *)
Definition ParseInLocation (layout value : string) (loc : Location) : error + Time :=
  if String.eqb layout "2006-01-02" then
    match parseDate value with
    | Some (y, m, d) => inr (Date y m d 0 0 0 0 loc)
    | None => inl ("parsing time " +:+ value +:+ " as " +:+ layout +:+ ": cannot parse")
    end
  else inl ("parsing time " +:+ value +:+ ": layout " +:+ layout +:+ " is not modelled").

End GoTime.

(** ** Data model of the sync command *)

(** Modelled from the spec: [types.Balance] is declared outside src/; a
    balance has an available and a reserved quantity and [Total] is their
    sum.  Quantities are signed fixed-point numbers, kept here as integers
    of the smallest unit. *)
Record Balance := { Available : Z; Locked : Z }.

Definition Total (b : Balance) : Z := Available b + Locked b.

(** Modelled from the spec: [types.Market] with the three fields read by
    symbol discovery. *)
Record Market := { Symbol : string; BaseCurrency : string; QuoteCurrency : string }.

(** The exchange handle of a session ([session.Exchange]) is only passed
    on to the sync engine; it is identified by a name. *)
Definition ExchangeHandle := string.

(** Modelled from the spec: [bbgo.ExchangeSession].  Besides the fields
    read by the command, the record carries what [session.Init] does when
    it is called: its error, and the balances and markets it fetches. *)
Record ExchangeSession := {
  Name : string;
  Exchange : ExchangeHandle;
  IsolatedMargin : bool;
  IsolatedMarginSymbol : string;
  InitError : option error;
  AccountBalances : gmap string Balance;
  Markets : list Market
}.

(** Calls made to collaborators, with the error each one returned. *)
Inductive Event :=
| EvInit (session : string) (r : option error)
| EvSyncTrades (ex : ExchangeHandle) (symbol : string) (startTime : GoTime.Time) (r : option error)
| EvSyncOrders (ex : ExchangeHandle) (symbol : string) (startTime : GoTime.Time) (r : option error).

(** [environ.TradeSync]: the outcome of each engine call may depend on
    every call made before it. *)
Record SyncService := {
  SyncTrades : list Event -> ExchangeHandle -> string -> GoTime.Time -> option error;
  SyncOrders : list Event -> ExchangeHandle -> string -> GoTime.Time -> option error
}.

(** Modelled from the spec: [bbgo.Environment] holds the configured
    sessions, in the order in which [environ.Sessions()] is ranged over,
    and the sync engine.  [rangeOrder] is the order in which the Go
    runtime visits the keys of a map it ranges over, which the language
    leaves open: it is given the keys and returns them as visited. *)
Record Environment := {
  Sessions : list ExchangeSession;
  TradeSync : SyncService;
  rangeOrder : list string -> list string
}.

(** [environ.Session(name)] *)
Definition Session (environ : Environment) (name : string) : option ExchangeSession :=
  find (fun s => String.eqb (Name s) name) (Sessions environ).

(** ** pkg/cmd/sync.go *)

(** [session.Init(ctx, environ)] *)
Definition Init (session : ExchangeSession) : M Event unit :=
  fun tr => let r := InitError session in
            check r (tr ++ [EvInit (Name session) r]).

Definition callSyncTrades (environ : Environment) (ex : ExchangeHandle)
    (symbol : string) (startTime : GoTime.Time) : M Event unit :=
  fun tr => let r := SyncTrades (TradeSync environ) tr ex symbol startTime in
            check r (tr ++ [EvSyncTrades ex symbol startTime r]).

Definition callSyncOrders (environ : Environment) (ex : ExchangeHandle)
    (symbol : string) (startTime : GoTime.Time) : M Event unit :=
  fun tr => let r := SyncOrders (TradeSync environ) tr ex symbol startTime in
            check r (tr ++ [EvSyncOrders ex symbol startTime r]).

Fixpoint stringSliceContains (slice : list string) (needle : string) : bool :=
  match slice with
  | [] => false
  | s :: rest => if String.eqb s needle then true else stringSliceContains rest needle
  end.

Definition fiatCurrencies : list string := ["USDC"; "USDT"; "USD"; "TWD"; "EUR"; "GBP"].

(** The first loop of [findPossibleSymbols]: the reference currencies held
    with a positive total, in the order of the reference list. *)
Fixpoint collectFiatAssets (balances : gmap string Balance) (currencies : list string)
    (fiatAssets : list string) : list string :=
  match currencies with
  | [] => fiatAssets
  | currency :: rest =>
      match balances !! currency with
      | Some balance =>
          if 0 <? Total balance
          then collectFiatAssets balances rest (fiatAssets ++ [currency])
          else collectFiatAssets balances rest fiatAssets
      | None => collectFiatAssets balances rest fiatAssets
      end
  end.

(** The second loop: the symbols of the markets that pass both checks. *)
Fixpoint collectSymbols (balances : gmap string Balance) (fiatAssets : list string)
    (markets : list Market) (symbolMap : gmap string unit) : gmap string unit :=
  match markets with
  | [] => symbolMap
  | market :: rest =>
      if negb (stringSliceContains fiatAssets (QuoteCurrency market)) then
        collectSymbols balances fiatAssets rest symbolMap
      else
        match balances !! BaseCurrency market with
        | Some balance =>
            if Total balance =? 0
            then collectSymbols balances fiatAssets rest symbolMap
            else collectSymbols balances fiatAssets rest (<[Symbol market := tt]> symbolMap)
        | None => collectSymbols balances fiatAssets rest symbolMap
        end
  end.

(** [findPossibleSymbols]: the last loop ranges over the keys of
    [symbolMap] in the order the runtime picks. *)
Definition findPossibleSymbols (environ : Environment) (session : ExchangeSession)
    : M Event (list string) :=
  Init session ;;;
  let balances := AccountBalances session in
  let fiatAssets := collectFiatAssets balances fiatCurrencies [] in
  let symbolMap := collectSymbols balances fiatAssets (Markets session) ∅ in
  ret (rangeOrder environ (map_to_list symbolMap).*1).

Definition syncSessionSymbol (environ : Environment) (session : ExchangeSession)
    (symbol : string) (startTime : GoTime.Time) : M Event unit :=
  let symbol := if IsolatedMargin session then IsolatedMarginSymbol session else symbol in
  callSyncTrades environ (Exchange session) symbol startTime ;;;
  callSyncOrders environ (Exchange session) symbol startTime ;;;
  ret tt.

(** [cmd.Flags().GetString(name)]: the flag set of a command, by name; a
    flag that was never defined is an error. *)
Definition GetString (flags : gmap string string) (name : string) : error + string :=
  match flags !! name with
  | Some v => inr v
  | None => inl ("flag accessed but not defined: " +:+ name)
  end.

(** Lines 62-77 of [SyncCmd.RunE]: the default start time is computed
    first and replaced when [--since] is given. *)
Definition resolveStartTime (now : GoTime.Time) (since : string) : error + GoTime.Time :=
  let startTime := GoTime.AddDate now 0 (-3) 0 in
  if nonEmpty since then
    match GoTime.LoadLocation "Asia/Taipei" with
    | inl err => inl err
    | inr loc => GoTime.ParseInLocation "2006-01-02" since loc
    end
  else inr startTime.

(** [if len(symbols) == 0 { symbols, err = findPossibleSymbols(...) }] *)
Definition symbolsOrDiscover (environ : Environment) (session : ExchangeSession)
    (symbols : list string) : M Event (list string) :=
  if Nat.eqb (length symbols) 0 then findPossibleSymbols environ session
  else ret symbols.

(** Lines 118-137: the loop over all sessions.  [symbols] is declared
    before the loop and is carried from one session to the next. *)
Fixpoint syncAllSessions (environ : Environment) (sessions : list ExchangeSession)
    (symbol : string) (symbols : list string) (startTime : GoTime.Time) : M Event unit :=
  match sessions with
  | [] => ret tt
  | session :: rest =>
      symbols <- symbolsOrDiscover environ session symbols ;;
      forRange symbols (fun s => syncSessionSymbol environ session s startTime) ;;;
      syncSessionSymbol environ session symbol startTime ;;;
      syncAllSessions environ rest symbol symbols startTime
  end.

(** Lines 89-139 of [SyncCmd.RunE]: the orchestrator proper. *)
Definition syncSessions (environ : Environment) (sessionName symbol : string)
    (startTime : GoTime.Time) : M Event unit :=
  let symbols := if nonEmpty symbol then [symbol] else [] in
  if nonEmpty sessionName then
    match Session environ sessionName with
    | None => throw ("session " +:+ sessionName +:+ " not found")
    | Some session =>
        symbols <- symbolsOrDiscover environ session symbols ;;
        forRange symbols (fun s => syncSessionSymbol environ session s startTime)
    end
  else
    syncAllSessions environ (Sessions environ) symbol symbols startTime.

(** What the command needs from the process around it: the file system,
    the configuration loader, the database setup and the clock. *)
Record Host (Config : Type) := {
  Stat : string -> option error;
  IsNotExist : error -> bool;
  Load : string -> error + Config;
  configureDB : option error;
  AddExchangesFromConfig : Config -> error + list ExchangeSession;
  Engine : SyncService;
  MapOrder : list string -> list string;
  Now : GoTime.Time
}.

Arguments Stat {Config}.
Arguments IsNotExist {Config}.
Arguments Load {Config}.
Arguments configureDB {Config}.
Arguments AddExchangesFromConfig {Config}.
Arguments Engine {Config}.
Arguments MapOrder {Config}.
Arguments Now {Config}.

(** [SyncCmd.RunE] *)
Definition SyncCmd_RunE {Config} (host : Host Config) (flags : gmap string string)
    : M Event unit :=
  configFile <- try (GetString flags "config") ;;
  if Nat.eqb (String.length configFile) 0 then throw "--config option is required" else
  check (match Stat host configFile with
         | Some err => if IsNotExist host err then Some err else None
         | None => None
         end) ;;;
  userConfig <- try (Load host configFile) ;;
  since <- try (GetString flags "since") ;;
  check (configureDB host) ;;;
  sessions <- try (AddExchangesFromConfig host userConfig) ;;
  let environ := {| Sessions := sessions; TradeSync := Engine host;
                    rangeOrder := MapOrder host |} in
  startTime <- try (resolveStartTime (Now host) since) ;;
  sessionName <- try (GetString flags "session") ;;
  symbol <- try (GetString flags "symbol") ;;
  syncSessions environ sessionName symbol startTime.

(** ** The FTX stream *)

Module Ftx.

Module types.

(** Modelled from the spec: [types.Channel] and [types.BookChannel] are
    declared outside src/; a channel is a tag and the order-book channel
    is the only supported one. *)
Definition Channel := string.
Definition BookChannel : Channel := "book".

End types.

(** Modelled from the spec: the outbound message
    {operation, channel, market}, and the login message derived from the
    API key, the secret and a timestamp. *)
Inductive operation := subscribe | unsubscribe | login.
Inductive channel := orderbook.
Record loginArgs := { Key : string; Secret : string; Time : GoTime.Time }.
Record websocketRequest := {
  Operation : operation;
  Channel : option channel;
  Market : string;
  Login : option loginArgs
}.

(** Modelled from the spec: [newLoginRequest] is not under src/. *)
Definition newLoginRequest (key secret : string) (t : GoTime.Time) : websocketRequest :=
  {| Operation := login; Channel := None; Market := "";
     Login := Some {| Key := key; Secret := secret; Time := t |} |}.

(** ASCII white space: the space and the controls from tab to carriage
    return. *)
Definition isSpace (c : ascii) : bool :=
  let n := nat_of_ascii c in
  (Nat.eqb n 32 || (Nat.leb 9 n && Nat.leb n 13))%bool.

(** ASCII uppercasing: a-z go to A-Z, every other byte stays. *)
Definition toUpper (c : ascii) : ascii :=
  let n := nat_of_ascii c in
  if (Nat.leb 97 n && Nat.leb n 122)%bool then ascii_of_nat (n - 32) else c.

(** Drops the leading white space. *)
Fixpoint trimLeft (cs : list ascii) : list ascii :=
  match cs with
  | [] => []
  | c :: rest => if isSpace c then trimLeft rest else cs
  end.

(** Modelled from the spec: [TrimUpperString] is not under src/; the
    symbol is trimmed of surrounding white space and uppercased, byte by
    byte on ASCII. *)
Definition TrimUpperString (original : string) : string :=
  string_of_list_ascii
    (List.map toUpper
       (rev (trimLeft (rev (trimLeft (list_ascii_of_string original)))))).

(** Calls received by the websocket service, oldest first. *)
Inductive WsCall :=
| WsSubscribe (request : websocketRequest)
| WsConnect (r : option error)
| WsClose (r : option error).

(** Modelled from the spec: [WebsocketService] is not under src/.  It
    holds the credentials and the calls it has received; [dial] and
    [hangup] give the outcome of establishing and of closing the
    transport after a given history. *)
Record WebsocketService := {
  key : string;
  secret : string;
  calls : list WsCall;
  dial : list WsCall -> option error;
  hangup : list WsCall -> option error
}.

Definition NewWebsocketService (key secret : string)
    (dial hangup : list WsCall -> option error) : WebsocketService :=
  {| key := key; secret := secret; calls := []; dial := dial; hangup := hangup |}.

(** The service after one more call. *)
Definition received (c : WsCall) (w : WebsocketService) : WebsocketService :=
  {| key := key w; secret := secret w; calls := calls w ++ [c];
     dial := dial w; hangup := hangup w |}.

(** [wsService.Subscribe(request)] queues the request. *)
Definition wsSubscribe (w : WebsocketService) (request : websocketRequest) : WebsocketService :=
  received (WsSubscribe request) w.

(** [wsService.Connect(ctx)] establishes the transport. *)
Definition wsConnect (w : WebsocketService) : option error * WebsocketService :=
  let r := dial w (calls w) in (r, received (WsConnect r) w).

(** [wsService.Close()] *)
Definition wsClose (w : WebsocketService) : option error * WebsocketService :=
  let r := hangup w (calls w) in (r, received (WsClose r) w).

(** [Stream]: [publicOnly] is an [int32]; [wsService] is the service
    [NewStream] created. *)
Record Stream := {
  wsService : WebsocketService;
  publicOnly : Z
}.

Definition NewStream (key secret : string)
    (dial hangup : list WsCall -> option error) : Stream :=
  {| wsService := NewWebsocketService key secret dial hangup; publicOnly := 0 |}.

(** [Stream.Connect]; [now] is the value of [time.Now()]. *)
Definition Connect (s : Stream) (now : GoTime.Time) : option error * Stream :=
  let w :=
    if publicOnly s =? 0 then
      wsSubscribe (wsService s)
        (newLoginRequest (key (wsService s)) (secret (wsService s)) now)
    else wsService s in
  let '(err, w) := wsConnect w in
  (err, {| wsService := w; publicOnly := publicOnly s |}).

(** [Stream.SetPublicOnly] *)
Definition SetPublicOnly (s : Stream) : Stream :=
  {| wsService := wsService s; publicOnly := 1 |}.

(** [Stream.Subscribe]: the body of the channel test is empty. *)
Definition Subscribe (s : Stream) (channel : types.Channel) (symbol : string) : Stream :=
  let s := if negb (String.eqb channel types.BookChannel) then s else s in
  {| wsService :=
       wsSubscribe (wsService s)
         {| Operation := subscribe; Channel := Some orderbook;
            Market := TrimUpperString symbol; Login := None |};
     publicOnly := publicOnly s |}.

(** [Stream.Close], for a stream made by [NewStream]. *)
Definition Close (s : Stream) : option error * Stream :=
  let '(err, w) := wsClose (wsService s) in
  (err, {| wsService := w; publicOnly := publicOnly s |}).

(** The calls a client can make on a stream, and their effect in
    sequence over the lifetime of the instance. *)
Inductive Call :=
| CallSetPublicOnly
| CallConnect (now : GoTime.Time)
| CallSubscribe (channel : types.Channel) (symbol : string)
| CallClose.

Definition step (s : Stream) (c : Call) : Stream :=
  match c with
  | CallSetPublicOnly => SetPublicOnly s
  | CallConnect now => snd (Connect s now)
  | CallSubscribe channel symbol => Subscribe s channel symbol
  | CallClose => snd (Close s)
  end.

Definition run (s : Stream) (cs : list Call) : Stream := fold_left step cs s.

Definition isSetPublicOnly (c : Call) : bool :=
  match c with CallSetPublicOnly => true | _ => false end.

Definition isLogin (c : WsCall) : bool :=
  match c with
  | WsSubscribe request =>
      match Operation request with login => true | _ => false end
  | _ => false
  end.

End Ftx.

(** ** The KuCoin example command [orders cancel] *)

Module Kucoin.

(** Modelled from the spec: the cancel request of [kucoinapi] is not
    under src/; it carries an optional order id and an optional client
    order id, both unset when the request is created. *)
Record CancelOrderRequest := {
  orderID : option string;
  clientOrderID : option string
}.

Definition NewCancelOrderRequest : CancelOrderRequest :=
  {| orderID := None; clientOrderID := None |}.

Definition OrderID (req : CancelOrderRequest) (id : string) : CancelOrderRequest :=
  {| orderID := Some id; clientOrderID := clientOrderID req |}.

Definition ClientOrderID (req : CancelOrderRequest) (id : string) : CancelOrderRequest :=
  {| orderID := orderID req; clientOrderID := Some id |}.

Definition Response := string.

(** Requests issued to the exchange, with what came back. *)
Inductive Issued := EvDo (req : CancelOrderRequest) (r : error + Response).

(** [req.Do(ctx)]: the exchange answers as a function of the history. *)
Definition Do (exchange : list Issued -> CancelOrderRequest -> error + Response)
    (req : CancelOrderRequest) : M Issued Response :=
  fun tr => let r := exchange tr req in try r (tr ++ [EvDo req r]).

(** [cancelOrderCmd.RunE] *)
Definition cancelOrderCmd_RunE
    (exchange : list Issued -> CancelOrderRequest -> error + Response)
    (flags : gmap string string) : M Issued unit :=
  let req := NewCancelOrderRequest in
  orderID <- try (GetString flags "order-id") ;;
  clientOrderID <- try (GetString flags "client-order-id") ;;
  req <- (if nonEmpty orderID then ret (OrderID req orderID)
          else if nonEmpty clientOrderID then ret (ClientOrderID req clientOrderID)
          else throw "either order id or client order id is required") ;;
  response <- Do exchange req ;;
  ret tt.

End Kucoin.

(** ** The KuCoin example commands [orders] and [orders place] *)

Module KucoinOrders.

(** Requests sent to the exchange, with what came back. *)
Inductive Sent (Req : Type) := EvSent (req : Req) (r : error + string).
Arguments EvSent {Req}.

(** [req.Do(ctx)]: the exchange answers as a function of the history. *)
Definition Do {Req} (exchange : list (Sent Req) -> Req -> error + string)
    (req : Req) : M (Sent Req) string :=
  fun tr => let r := exchange tr req in try r (tr ++ [EvSent req r]).

(** Modelled from the spec: the list-orders request of [kucoinapi] is not
    under src/; it carries the fields its setters were called with. *)
Record ListOrdersRequest := {
  listSymbol : option string;
  listStatus : option string
}.

Definition NewListOrdersRequest : ListOrdersRequest :=
  {| listSymbol := None; listStatus := None |}.

Definition ListOrdersRequest_Symbol (req : ListOrdersRequest) (symbol : string)
    : ListOrdersRequest :=
  {| listSymbol := Some symbol; listStatus := listStatus req |}.

Definition ListOrdersRequest_Status (req : ListOrdersRequest) (status : string)
    : ListOrdersRequest :=
  {| listSymbol := listSymbol req; listStatus := Some status |}.

(** Modelled from the spec: the place-order request of [kucoinapi] is
    not under src/; it carries the fields its setters were called with. *)
Record PlaceOrderRequest := {
  placeOrderType : option string;
  placeSide : option string;
  placeSymbol : option string;
  placePrice : option string;
  placeSize : option string
}.

Definition NewPlaceOrderRequest : PlaceOrderRequest :=
  {| placeOrderType := None; placeSide := None; placeSymbol := None;
     placePrice := None; placeSize := None |}.

Definition PlaceOrderRequest_OrderType (req : PlaceOrderRequest) (v : string)
    : PlaceOrderRequest :=
  {| placeOrderType := Some v; placeSide := placeSide req;
     placeSymbol := placeSymbol req; placePrice := placePrice req;
     placeSize := placeSize req |}.

Definition PlaceOrderRequest_Side (req : PlaceOrderRequest) (v : string)
    : PlaceOrderRequest :=
  {| placeOrderType := placeOrderType req; placeSide := Some v;
     placeSymbol := placeSymbol req; placePrice := placePrice req;
     placeSize := placeSize req |}.

Definition PlaceOrderRequest_Symbol (req : PlaceOrderRequest) (v : string)
    : PlaceOrderRequest :=
  {| placeOrderType := placeOrderType req; placeSide := placeSide req;
     placeSymbol := Some v; placePrice := placePrice req;
     placeSize := placeSize req |}.

Definition PlaceOrderRequest_Price (req : PlaceOrderRequest) (v : string)
    : PlaceOrderRequest :=
  {| placeOrderType := placeOrderType req; placeSide := placeSide req;
     placeSymbol := placeSymbol req; placePrice := Some v;
     placeSize := placeSize req |}.

Definition PlaceOrderRequest_Size (req : PlaceOrderRequest) (v : string)
    : PlaceOrderRequest :=
  {| placeOrderType := placeOrderType req; placeSide := placeSide req;
     placeSymbol := placeSymbol req; placePrice := placePrice req;
     placeSize := Some v |}.

(** Modelled from the spec: the order types [kucoinapi.OrderTypeLimit]
    and [kucoinapi.OrderTypeMarket] are declared outside src/; limit and
    market are the two variants. *)
Definition OrderTypeLimit : string := "limit".
Definition OrderTypeMarket : string := "market".

(** [ordersCmd.RunE] *)
Definition ordersCmd_RunE
    (exchange : list (Sent ListOrdersRequest) -> ListOrdersRequest -> error + string)
    (flags : gmap string string) : M (Sent ListOrdersRequest) unit :=
  let req := NewListOrdersRequest in
  symbol <- try (GetString flags "symbol") ;;
  if Nat.eqb (String.length symbol) 0 then throw "--symbol option is required" else
  let req := ListOrdersRequest_Symbol req symbol in
  status <- try (GetString flags "status") ;;
  let req := if nonEmpty status then ListOrdersRequest_Status req status else req in
  page <- Do exchange req ;;
  ret tt.

(** [placeOrderCmd.RunE] *)
Definition placeOrderCmd_RunE
    (exchange : list (Sent PlaceOrderRequest) -> PlaceOrderRequest -> error + string)
    (flags : gmap string string) : M (Sent PlaceOrderRequest) unit :=
  let req := NewPlaceOrderRequest in
  orderType <- try (GetString flags "order-type") ;;
  let req := PlaceOrderRequest_OrderType req orderType in
  side <- try (GetString flags "side") ;;
  let req := PlaceOrderRequest_Side req side in
  symbol <- try (GetString flags "symbol") ;;
  if Nat.eqb (String.length symbol) 0 then throw "--symbol is required" else
  let req := PlaceOrderRequest_Symbol req symbol in
  req <- (if String.eqb orderType OrderTypeLimit then
            price <- try (GetString flags "price") ;;
            ret (PlaceOrderRequest_Price req price)
          else if String.eqb orderType OrderTypeMarket then ret req
          else ret req) ;;
  size <- try (GetString flags "size") ;;
  let req := PlaceOrderRequest_Size req size in
  response <- Do exchange req ;;
  ret tt.

(** The flags [init] defines, with their default values. *)
Definition ordersCmdFlags : gmap string string :=
  <["symbol" := ""]> (<["status" := ""]> ∅).

Definition cancelOrderCmdFlags : gmap string string :=
  <["client-order-id" := ""]> (<["order-id" := ""]> ∅).

Definition placeOrderCmdFlags : gmap string string :=
  <["symbol" := ""]> (<["price" := ""]> (<["size" := ""]>
    (<["order-type" := OrderTypeLimit]> (<["side" := ""]> ∅)))).

(** The flag set a command runs with: the values given on the command
    line, and the default of every flag that was not given. *)
Definition parsed (defaults given : gmap string string) : gmap string string :=
  given ∪ defaults.

End KucoinOrders.

(** ** Vocabulary of the properties *)

(** The currency is present in the balances with a total above zero. *)
Definition positiveTotal (balances : gmap string Balance) (currency : string) : Prop :=
  exists b, balances !! currency = Some b /\ 0 < Total b.

(** The currency is present in the balances with a total other than zero. *)
Definition nonzeroTotal (balances : gmap string Balance) (currency : string) : Prop :=
  exists b, balances !! currency = Some b /\ Total b <> 0.

(** The runtime visits every key of a map once, in some order. *)
Definition visitsEachKey (environ : Environment) : Prop :=
  forall keys, rangeOrder environ keys ≡ₚ keys.

(** The fiat-asset set derived from the balances. *)
Definition fiatAsset (balances : gmap string Balance) (currency : string) : Prop :=
  currency ∈ fiatCurrencies /\ positiveTotal balances currency.

(** [symbols] holds, without repetition, exactly the symbols of the
    session's markets quoted in a fiat asset whose base currency
    satisfies [held]. *)
Definition discoversExactly (held : gmap string Balance -> string -> Prop)
    (session : ExchangeSession) (symbols : list string) : Prop :=
  NoDup symbols /\
  forall sym, sym ∈ symbols <->
    exists market, market ∈ Markets session /\ Symbol market = sym /\
      fiatAsset (AccountBalances session) (QuoteCurrency market) /\
      held (AccountBalances session) (BaseCurrency market).

(** The symbol a session is synchronised for when [symbol] is requested. *)
Definition effectiveSymbol (session : ExchangeSession) (symbol : string) : string :=
  if IsolatedMargin session then IsolatedMarginSymbol session else symbol.

Definition isEngineCall (ev : Event) : bool :=
  match ev with
  | EvInit _ _ => false
  | EvSyncTrades _ _ _ _ | EvSyncOrders _ _ _ _ => true
  end.

Definition isInit (ev : Event) : bool := negb (isEngineCall ev).

(** The calls made to the sync engine, oldest first. *)
Definition engineCalls (tr : list Event) : list Event := List.filter isEngineCall tr.

(** The [Init] calls, oldest first. *)
Definition initCalls (tr : list Event) : list Event := List.filter isInit tr.

Definition engineFailed (ev : Event) : bool :=
  match ev with
  | EvSyncTrades _ _ _ (Some _) | EvSyncOrders _ _ _ (Some _) => true
  | _ => false
  end.

(** The engine calls of a pair that was synchronised without error: the
    trades, then the orders. *)
Definition completed (startTime : GoTime.Time) (pair : ExchangeSession * string)
    : list Event :=
  let ex := Exchange pair.1 in
  let symbol := effectiveSymbol pair.1 pair.2 in
  [EvSyncTrades ex symbol startTime None; EvSyncOrders ex symbol startTime None].

(** The engine calls of a pair on which the engine failed with [e]:
    either the trade sync failed and the order sync was not called, or the
    trade sync returned and the order sync failed. *)
Definition failedWith (startTime : GoTime.Time) (pair : ExchangeSession * string)
    (e : error) (calls : list Event) : Prop :=
  let ex := Exchange pair.1 in
  let symbol := effectiveSymbol pair.1 pair.2 in
  calls = [EvSyncTrades ex symbol startTime (Some e)] \/
  calls = [EvSyncTrades ex symbol startTime None;
           EvSyncOrders ex symbol startTime (Some e)].

(** The symbol list a session is synchronised with: what
    [symbolsOrDiscover] returns, which does not depend on the history. *)
Definition symbolsFor (environ : Environment) (session : ExchangeSession)
    (symbols : list string) : error + list string :=
  (symbolsOrDiscover environ session symbols []).1.

(** The sequence of (session, symbol) pairs the orchestrator processes:
    the pairs it calls [syncSessionSymbol] on, in order, as long as no
    call fails; it ends at a session whose [Init] fails. *)
Fixpoint pairsAllSessions (environ : Environment) (sessions : list ExchangeSession)
    (symbol : string) (symbols : list string) : list (ExchangeSession * string) :=
  match sessions with
  | [] => []
  | session :: rest =>
      match symbolsFor environ session symbols with
      | inl _ => []
      | inr symbols =>
          map (pair session) symbols ++ [(session, symbol)]
            ++ pairsAllSessions environ rest symbol symbols
      end
  end.

Definition pairSequence (environ : Environment) (sessionName symbol : string)
    : list (ExchangeSession * string) :=
  let symbols := if nonEmpty symbol then [symbol] else [] in
  if nonEmpty sessionName then
    match Session environ sessionName with
    | None => []
    | Some session =>
        match symbolsFor environ session symbols with
        | inl _ => []
        | inr symbols => map (pair session) symbols
        end
    end
  else pairsAllSessions environ (Sessions environ) symbol symbols.

(** All of [pairs] were synchronised, each once and in order, between the
    histories [tr0] and [tr]. *)
Definition Completes (startTime : GoTime.Time) (pairs : list (ExchangeSession * string))
    (tr0 tr : list Event) : Prop :=
  engineCalls tr = engineCalls tr0 ++ flat_map (completed startTime) pairs.

(** Between [tr0] and [tr] the engine failed with [e] on the pair at
    index [N] of [pairs]: the pairs before it were synchronised, each once
    and in order, and the history ends with the calls of the failing pair. *)
Definition AbortsAt (startTime : GoTime.Time) (pairs : list (ExchangeSession * string))
    (N : nat) (e : error) (tr0 tr : list Event) : Prop :=
  exists pair failing,
    pairs !! N = Some pair /\
    failedWith startTime pair e failing /\
    engineCalls tr
      = engineCalls tr0 ++ flat_map (completed startTime) (take N pairs) ++ failing /\
    failing `suffix_of` tr.

(** What a computation started at history [tr0] has done when it ends in
    [out]: on return all of [pairs] were synchronised; on an error either
    the engine failed on one of them or, when [strict] is off, all of them
    were synchronised and the error arose after the last pair. *)
Definition outcome {A} (strict : bool) (startTime : GoTime.Time)
    (pairs : list (ExchangeSession * string)) (tr0 : list Event)
    (out : (error + A) * list Event) : Prop :=
  match out with
  | (inr _, tr) => Completes startTime pairs tr0 tr
  | (inl e, tr) =>
      (strict = false /\ Completes startTime pairs tr0 tr)
      \/ exists N, AbortsAt startTime pairs N e tr0 tr
  end.

(** A computation that synchronises [pairs]. *)
Definition syncs {A} (strict : bool) (startTime : GoTime.Time)
    (pairs : list (ExchangeSession * string)) (c : M Event A) : Prop :=
  forall tr0, outcome strict startTime pairs tr0 (c tr0).

(** Computations that make no [Init] call. *)
Definition quiet {A} (c : M Event A) : Prop :=
  forall tr0, initCalls (c tr0).2 = initCalls tr0.

(** The byte sequence does not start with white space. *)
Definition startsClean (cs : list ascii) : Prop :=
  match cs with
  | [] => True
  | c :: _ => Ftx.isSpace c = false
  end.

(** [result] is [original] without its leading and trailing white space,
    with every byte uppercased. *)
Definition trimmedUppercased (original result : string) : Prop :=
  exists pre mid post,
    list_ascii_of_string original = pre ++ mid ++ post /\
    Forall (fun c => Ftx.isSpace c = true) pre /\
    Forall (fun c => Ftx.isSpace c = true) post /\
    startsClean mid /\ startsClean (rev mid) /\
    result = string_of_list_ascii (List.map Ftx.toUpper mid).

(** A computation that only appends events, all of them satisfying [P]. *)
Definition adds {A} (P : Event -> Prop) (c : M Event A) : Prop :=
  forall tr0, exists new, (c tr0).2 = tr0 ++ new /\ Forall P new.

(** The event is a call on this session: its [Init], or an engine call
    with its exchange handle. *)
Definition concerns (session : ExchangeSession) (ev : Event) : Prop :=
  match ev with
  | EvInit name _ => name = Name session
  | EvSyncTrades ex _ _ _ | EvSyncOrders ex _ _ _ => ex = Exchange session
  end.

(** The event is not an engine call for a symbol other than [X]. *)
Definition syncsOnly (X : string) (ev : Event) : Prop :=
  match ev with
  | EvInit _ _ => True
  | EvSyncTrades _ symbol _ _ | EvSyncOrders _ symbol _ _ => symbol = X
  end.

(** The event is not an engine call with a start time other than
    [startTime]. *)
Definition startsAt (startTime : GoTime.Time) (ev : Event) : Prop :=
  match ev with
  | EvInit _ _ => True
  | EvSyncTrades _ _ t _ | EvSyncOrders _ _ t _ => t = startTime
  end.

(** The event is a call on one of the configured sessions. *)
Definition configured (environ : Environment) (ev : Event) : Prop :=
  exists s, s ∈ Sessions environ /\ concerns s ev.

(** The host with a file system on which [os.Stat] never fails. *)
Definition statSucceeds {Config} (host : Host Config) : Host Config :=
  {| Stat := fun _ => None; IsNotExist := IsNotExist host; Load := Load host;
     configureDB := configureDB host;
     AddExchangesFromConfig := AddExchangesFromConfig host;
     Engine := Engine host; MapOrder := MapOrder host; Now := Now host |}.

Definition isDial (c : Ftx.WsCall) : bool :=
  match c with Ftx.WsConnect _ => true | _ => false end.

Definition isConnect (c : Ftx.Call) : bool :=
  match c with Ftx.CallConnect _ => true | _ => false end.

(** The request [Subscribe] queues for a symbol. *)
Definition bookRequest (symbol : string) : Ftx.websocketRequest :=
  {| Ftx.Operation := Ftx.subscribe; Ftx.Channel := Some Ftx.orderbook;
     Ftx.Market := Ftx.TrimUpperString symbol; Ftx.Login := None |}.

(** The call is a login request with these credentials, stamped with the
    time of one of the [Connect] calls in [cs]. *)
Definition loginOf (key secret : string) (cs : list Ftx.Call) (c : Ftx.WsCall) : Prop :=
  exists now, Ftx.CallConnect now ∈ cs /\
    c = Ftx.WsSubscribe (Ftx.newLoginRequest key secret now).

(** The date names an existing day of the calendar. *)
Definition validDate (t : GoTime.Time) : Prop :=
  1 <= GoTime.month t <= 12 /\
  1 <= GoTime.day t <= GoTime.daysIn (GoTime.month t) (GoTime.year t).

(** The months elapsed since the start of year 0. *)
Definition monthIndex (t : GoTime.Time) : Z :=
  12 * GoTime.year t + (GoTime.month t - 1).

(** The same time of day in the same location. *)
Definition sameClock (a b : GoTime.Time) : Prop :=
  GoTime.hour a = GoTime.hour b /\ GoTime.minute a = GoTime.minute b /\
  GoTime.second a = GoTime.second b /\ GoTime.nanosecond a = GoTime.nanosecond b /\
  GoTime.location a = GoTime.location b.

(** [start] is [now] minus exactly three calendar months: the same day of
    the month and the same time of day, three months earlier. *)
Definition threeMonthsEarlier (now start : GoTime.Time) : Prop :=
  monthIndex start = monthIndex now - 3 /\
  GoTime.day start = GoTime.day now /\
  sameClock now start.

(** The length of the month three months before the month of [now]. *)
Definition targetMonthLength (now : GoTime.Time) : Z :=
  let '(y, m) := GoTime.normalizeMonth (GoTime.year now) (GoTime.month now - 3) in
  GoTime.daysIn m y.

(** The decimal digit [k] as a character, and a date written
    YYYY-MM-DD. *)
Definition digitChar (k : Z) : ascii := ascii_of_nat (Z.to_nat (48 + k)).

Definition formatDate (y m d : Z) : string :=
  String (digitChar (y / 1000)) (String (digitChar (y / 100 mod 10))
    (String (digitChar (y / 10 mod 10)) (String (digitChar (y mod 10))
      (String "-" (String (digitChar (m / 10)) (String (digitChar (m mod 10))
        (String "-" (String (digitChar (d / 10)) (String (digitChar (d mod 10))
          EmptyString))))))))).

(** ** Sample inputs *)

Definition quantity (n : Z) : Balance := {| Available := n; Locked := 0 |}.

Definition btcusdt : Market :=
  {| Symbol := "BTCUSDT"; BaseCurrency := "BTC"; QuoteCurrency := "USDT" |}.

Definition ethusdt : Market :=
  {| Symbol := "ETHUSDT"; BaseCurrency := "ETH"; QuoteCurrency := "USDT" |}.

Definition newYear2022 : GoTime.Time := GoTime.Date 2022 1 1 0 0 0 0 GoTime.Taipei.

(** Noon on the last day of May 2022, in Taipei. *)
Definition endOfMay2022 : GoTime.Time := GoTime.Date 2022 5 31 12 0 0 0 GoTime.Taipei.

(** An engine that fails every call on the exchange "max". *)
Definition engineFailsOnMax : SyncService :=
  {| SyncTrades := fun _ ex _ _ =>
       if String.eqb ex "max" then Some "rate limited" else None;
     SyncOrders := fun _ ex _ _ =>
       if String.eqb ex "max" then Some "rate limited" else None |}.

(** An engine that never fails. *)
Definition engineOk : SyncService :=
  {| SyncTrades := fun _ _ _ _ => None; SyncOrders := fun _ _ _ _ => None |}.

(** Holds USDT and BTC. *)
Definition sessionA : ExchangeSession :=
  {| Name := "a"; Exchange := "binance";
     IsolatedMargin := false; IsolatedMarginSymbol := "";
     InitError := None;
     AccountBalances := <["USDT" := quantity 100]> (<["BTC" := quantity 2]> ∅);
     Markets := [btcusdt; ethusdt] |}.

(** Holds USDT and ETH. *)
Definition sessionB : ExchangeSession :=
  {| Name := "b"; Exchange := "max";
     IsolatedMargin := false; IsolatedMarginSymbol := "";
     InitError := None;
     AccountBalances := <["USDT" := quantity 50]> (<["ETH" := quantity 3]> ∅);
     Markets := [btcusdt; ethusdt] |}.

(** Holds USDT and owes one BTC: the BTC total is below zero. *)
Definition sessionShort : ExchangeSession :=
  {| Name := "short"; Exchange := "binance";
     IsolatedMargin := false; IsolatedMarginSymbol := "";
     InitError := None;
     AccountBalances := <["USDT" := quantity 100]> (<["BTC" := quantity (-1)]> ∅);
     Markets := [btcusdt] |}.

(** An isolated-margin session fixed on ETHUSDT. *)
Definition sessionIsolated : ExchangeSession :=
  {| Name := "margin"; Exchange := "binance";
     IsolatedMargin := true; IsolatedMarginSymbol := "ETHUSDT";
     InitError := None;
     AccountBalances := <["USDT" := quantity 100]> (<["BTC" := quantity 2]> ∅);
     Markets := [btcusdt; ethusdt] |}.

Definition twoSessions (engine : SyncService) : Environment :=
  {| Sessions := [sessionA; sessionB]; TradeSync := engine;
     rangeOrder := fun keys => keys |}.

(** A transport that always connects and closes without error. *)
Definition transportOk : list Ftx.WsCall -> option error := fun _ => None.

Definition freshStream : Ftx.Stream := Ftx.NewStream "key" "secret" transportOk transportOk.

(** An exchange that accepts every cancel request. *)
Definition exchangeOk : list Kucoin.Issued -> Kucoin.CancelOrderRequest
    -> error + Kucoin.Response := fun _ _ => inr "cancelled".

Definition cancelFlags (orderID clientOrderID : string) : gmap string string :=
  <["order-id" := orderID]> (<["client-order-id" := clientOrderID]> ∅).

(** A host whose configuration file "bbgo.yaml" loads the two sample
    sessions; "locked.yaml" exists but cannot be inspected. *)
Definition sampleHost : Host unit :=
  {| Stat := fun file =>
       if String.eqb file "locked.yaml" then Some "permission denied"
       else if String.eqb file "bbgo.yaml" then None
       else Some "no such file or directory";
     IsNotExist := fun err => String.eqb err "no such file or directory";
     Load := fun _ => inr tt;
     configureDB := None;
     AddExchangesFromConfig := fun _ => inr [sessionA; sessionB];
     Engine := engineOk;
     MapOrder := fun keys => keys;
     Now := newYear2022 |}.

Definition syncFlags (config session symbol since : string) : gmap string string :=
  <["config" := config]> (<["session" := session]>
    (<["symbol" := symbol]> (<["since" := since]> ∅))).

(** An environment with the isolated-margin session next to the others. *)
Definition withMargin (engine : SyncService) : Environment :=
  {| Sessions := [sessionA; sessionIsolated; sessionB]; TradeSync := engine;
     rangeOrder := fun keys => keys |}.

(** A session that holds crypto assets only. *)
Definition sessionCrypto : ExchangeSession :=
  {| Name := "crypto"; Exchange := "binance";
     IsolatedMargin := false; IsolatedMarginSymbol := "";
     InitError := None;
     AccountBalances := <["BTC" := quantity 2]> (<["ETH" := quantity 3]> ∅);
     Markets := [btcusdt; ethusdt] |}.

(** A session whose [Init] fails. *)
Definition sessionDown : ExchangeSession :=
  {| Name := "down"; Exchange := "max";
     IsolatedMargin := false; IsolatedMarginSymbol := "";
     InitError := Some "connection refused";
     AccountBalances := ∅;
     Markets := [] |}.

Definition withDown (engine : SyncService) : Environment :=
  {| Sessions := [sessionA; sessionDown]; TradeSync := engine;
     rangeOrder := fun keys => keys |}.

(** The crypto-only session followed by the session that is down. *)
Definition cryptoThenDown (engine : SyncService) : Environment :=
  {| Sessions := [sessionCrypto; sessionDown]; TradeSync := engine;
     rangeOrder := fun keys => keys |}.

(** An exchange that accepts every request, and one that rejects them. *)
Definition accepts {Req} : list (KucoinOrders.Sent Req) -> Req -> error + string :=
  fun _ _ => inr "ok".

Definition rejects {Req} : list (KucoinOrders.Sent Req) -> Req -> error + string :=
  fun _ _ => inl "rejected".

Definition exchangeDown : list Kucoin.Issued -> Kucoin.CancelOrderRequest
    -> error + Kucoin.Response := fun _ _ => inl "rejected".

(** ** Symbol discovery *)

Section Discovery.

Variable balances : gmap string Balance.

Lemma stringSliceContains_spec slice needle :
  stringSliceContains slice needle = true <-> needle ∈ slice.
Proof.
  induction slice as [|s rest IH]; simpl.
  - split; [discriminate | intros H; inversion H].
  - destruct (String.eqb_spec s needle) as [->|Hne].
    + split; [intros _; left | reflexivity].
    + rewrite IH. split; [intros H; now right|].
      intros H. apply elem_of_cons in H as [H|H]; [congruence | exact H].
Qed.

Lemma collectFiatAssets_spec currencies fiatAssets c :
  c ∈ collectFiatAssets balances currencies fiatAssets <->
  c ∈ fiatAssets \/ (c ∈ currencies /\ positiveTotal balances c).
Proof.
  revert fiatAssets.
  induction currencies as [|cur rest IH]; intros fiatAssets; simpl.
  - split; [now left | intros [H|[H _]]; [exact H | inversion H]].
  - destruct (balances !! cur) as [b|] eqn:Hb.
    + destruct (Z.ltb_spec 0 (Total b)) as [Hpos|Hnpos]; rewrite IH.
      * rewrite elem_of_app, list_elem_of_singleton, elem_of_cons.
        split.
        -- intros [[H| ->]|[H1 H2]]; eauto.
           right. split; [now left|]. exists b. auto.
        -- intros [H|[[->|H1] H2]]; eauto.
      * rewrite elem_of_cons. split.
        -- intros [H|[H1 H2]]; eauto.
        -- intros [H|[[->|H1] H2]]; eauto.
           destruct H2 as (b' & Hb' & Hpos). rewrite Hb in Hb'.
           injection Hb' as <-. lia.
    + rewrite IH, elem_of_cons. split.
      * intros [H|[H1 H2]]; eauto.
      * intros [H|[[->|H1] H2]]; eauto.
        destruct H2 as (b' & Hb' & _). congruence.
Qed.

Lemma fiatAssets_spec c :
  c ∈ collectFiatAssets balances fiatCurrencies [] <-> fiatAsset balances c.
Proof.
  rewrite collectFiatAssets_spec. unfold fiatAsset.
  split; [intros [H|H]; [inversion H | exact H] | now right].
Qed.

Lemma collectSymbols_spec fiatAssets markets (symbolMap : gmap string unit) sym :
  is_Some (collectSymbols balances fiatAssets markets symbolMap !! sym) <->
  is_Some (symbolMap !! sym) \/
  exists market, market ∈ markets /\ Symbol market = sym /\
    QuoteCurrency market ∈ fiatAssets /\
    nonzeroTotal balances (BaseCurrency market).
Proof.
  revert symbolMap.
  induction markets as [|mk rest IH]; intros symbolMap; simpl.
  - split; [now left | intros [H|(m & H & _)]; [exact H | inversion H]].
  - assert (Hskip :
      ~ (QuoteCurrency mk ∈ fiatAssets /\ nonzeroTotal balances (BaseCurrency mk)) ->
      (is_Some (collectSymbols balances fiatAssets rest symbolMap !! sym) <->
       is_Some (symbolMap !! sym) \/
       exists market, market ∈ mk :: rest /\ Symbol market = sym /\
         QuoteCurrency market ∈ fiatAssets /\
         nonzeroTotal balances (BaseCurrency market))).
    { intros Hno. rewrite IH. split.
      - intros [H|(m & Hin & Hm)]; [now left|].
        right. exists m. split; [now right | exact Hm].
      - intros [H|(m & Hin & Hs & Hq & Hb)]; [now left|].
        apply elem_of_cons in Hin as [->|Hin]; [tauto|].
        right. exists m. auto. }
    destruct (stringSliceContains fiatAssets (QuoteCurrency mk)) eqn:Hq; simpl.
    + apply stringSliceContains_spec in Hq.
      destruct (balances !! BaseCurrency mk) as [b|] eqn:Hb.
      * destruct (Z.eqb_spec (Total b) 0) as [Hz|Hnz].
        -- apply Hskip. intros [_ (b' & Hb' & Hne)].
           rewrite Hb in Hb'. injection Hb' as <-. contradiction.
        -- rewrite IH. split.
           ++ intros [H|(m & Hin & Hm)].
              ** destruct (decide (Symbol mk = sym)) as [Heq|Hne].
                 --- right. exists mk. split; [now left|].
                     split; [exact Heq|]. split; [exact Hq|]. exists b. auto.
                 --- left. now rewrite lookup_insert_ne in H.
              ** right. exists m. split; [now right | exact Hm].
           ++ intros [H|(m & Hin & Hs & Hm)].
              ** left. destruct (decide (Symbol mk = sym)) as [Heq|Hne].
                 --- rewrite Heq, lookup_insert_eq. eauto.
                 --- now rewrite lookup_insert_ne.
              ** apply elem_of_cons in Hin as [->|Hin].
                 --- left. rewrite Hs, lookup_insert_eq. eauto.
                 --- right. exists m. auto.
      * apply Hskip. intros [_ (b' & Hb' & _)]. congruence.
    + apply Hskip. intros [Hin _].
      apply stringSliceContains_spec in Hin. congruence.
Qed.

Lemma keys_spec (symbolMap : gmap string unit) sym :
  sym ∈ (map_to_list symbolMap).*1 <-> is_Some (symbolMap !! sym).
Proof.
  rewrite list_elem_of_fmap. split.
  - intros ([k u] & -> & Hin). apply elem_of_map_to_list in Hin. simpl. eauto.
  - intros [u Hu]. exists (sym, u). split; [reflexivity|].
    now apply elem_of_map_to_list.
Qed.

End Discovery.

(** When [Init] succeeds, discovery returns the symbols of the markets
    quoted in a fiat asset whose base currency is held with a total other
    than zero, each once, and records the one [Init] call. *)
Lemma findPossibleSymbols_ok environ session tr :
  visitsEachKey environ ->
  InitError session = None ->
  exists symbols,
    findPossibleSymbols environ session tr
      = (inr symbols, tr ++ [EvInit (Name session) None]) /\
    discoversExactly nonzeroTotal session symbols.
Proof.
  intros Horder Hinit.
  exists (rangeOrder environ
            (map_to_list
               (collectSymbols (AccountBalances session)
                  (collectFiatAssets (AccountBalances session) fiatCurrencies [])
                  (Markets session) ∅)).*1).
  split.
  - unfold findPossibleSymbols, bind, Init. rewrite Hinit. reflexivity.
  - split; [rewrite (Horder _); apply NoDup_fst_map_to_list|].
    intros sym. rewrite (Horder _), keys_spec, collectSymbols_spec. split.
    + intros [[u Hu]|(m & Hin & Hs & Hq & Hb)].
      * rewrite lookup_empty in Hu. discriminate.
      * exists m. rewrite <- fiatAssets_spec. auto.
    + intros (m & Hin & Hs & Hq & Hb). right. exists m.
      rewrite fiatAssets_spec. auto.
Qed.

(** When [Init] fails, discovery returns its error and no symbols. *)
Lemma findPossibleSymbols_err environ session tr e :
  InitError session = Some e ->
  findPossibleSymbols environ session tr
    = (inl e, tr ++ [EvInit (Name session) (Some e)]).
Proof.
  intros Hinit. unfold findPossibleSymbols, bind, Init. rewrite Hinit. reflexivity.
Qed.

(** ** The sync orchestrator *)

Lemma bind_ret_l {Ev A B} (a : A) (k : A -> M Ev B) : bind (ret a) k = k a.
Proof. reflexivity. Qed.

Lemma engineCalls_app tr1 tr2 :
  engineCalls (tr1 ++ tr2) = engineCalls tr1 ++ engineCalls tr2.
Proof. apply List.filter_app. Qed.

Lemma initCalls_app tr1 tr2 :
  initCalls (tr1 ++ tr2) = initCalls tr1 ++ initCalls tr2.
Proof. apply List.filter_app. Qed.

Lemma engineFailed_engineCalls tr :
  existsb engineFailed (engineCalls tr) = existsb engineFailed tr.
Proof.
  induction tr as [|ev rest IH]; simpl; [reflexivity|].
  destruct ev as [n r|ex s t [e|]|ex s t [e|]]; simpl; rewrite ?IH; reflexivity.
Qed.

Lemma engineFailed_completed startTime pairs :
  existsb engineFailed (flat_map (completed startTime) pairs) = false.
Proof. induction pairs as [|p rest IH]; simpl; [reflexivity | exact IH]. Qed.

(** One pair: the trade sync, then the order sync when it returned. *)
Lemma syncSessionSymbol_trace environ session symbol startTime tr0 :
  let ex := Exchange session in
  let sym := effectiveSymbol session symbol in
  let r1 := SyncTrades (TradeSync environ) tr0 ex sym startTime in
  let tr1 := tr0 ++ [EvSyncTrades ex sym startTime r1] in
  let r2 := SyncOrders (TradeSync environ) tr1 ex sym startTime in
  syncSessionSymbol environ session symbol startTime tr0 =
    match r1 with
    | Some e => (inl e, tr1)
    | None =>
        match r2 with
        | Some e => (inl e, tr1 ++ [EvSyncOrders ex sym startTime r2])
        | None => (inr tt, tr1 ++ [EvSyncOrders ex sym startTime r2])
        end
    end.
Proof.
  unfold syncSessionSymbol, callSyncTrades, callSyncOrders, bind, effectiveSymbol.
  cbv zeta.
  destruct (SyncTrades _ _ _ _ _) as [e|]; simpl; [reflexivity|].
  destruct (SyncOrders _ _ _ _ _) as [e|]; reflexivity.
Qed.

Lemma syncs_syncSessionSymbol environ session symbol startTime :
  syncs true startTime [(session, symbol)]
    (syncSessionSymbol environ session symbol startTime).
Proof.
  intros tr0. rewrite syncSessionSymbol_trace. cbv zeta.
  destruct (SyncTrades _ _ _ _ _) as [e|] eqn:H1.
  - right. exists 0%nat, (session, symbol). eexists. split; [reflexivity|].
    split; [left; reflexivity|].
    split; [|now exists tr0].
    rewrite engineCalls_app. reflexivity.
  - destruct (SyncOrders _ _ _ _ _) as [e|] eqn:H2.
    + right. exists 0%nat, (session, symbol). eexists. split; [reflexivity|].
      split; [right; reflexivity|].
      split; [|exists tr0; now rewrite <- app_assoc].
      rewrite !engineCalls_app. simpl. now rewrite <- app_assoc.
    + unfold outcome, Completes. rewrite !engineCalls_app. simpl.
      now rewrite <- app_assoc.
Qed.

Lemma AbortsAt_app_l startTime p1 p2 N e tr0 tr :
  AbortsAt startTime p1 N e tr0 tr -> AbortsAt startTime (p1 ++ p2) N e tr0 tr.
Proof.
  intros (pair & failing & Hn & Hf & Htr & Hsuf).
  exists pair, failing. split; [|split; [exact Hf|split; [|exact Hsuf]]].
  - now apply lookup_app_l_Some.
  - apply lookup_lt_Some in Hn.
    rewrite take_app_le by lia. exact Htr.
Qed.

Lemma AbortsAt_app_r startTime p1 p2 N e tr0 tr1 tr :
  Completes startTime p1 tr0 tr1 ->
  AbortsAt startTime p2 N e tr1 tr ->
  AbortsAt startTime (p1 ++ p2) (length p1 + N) e tr0 tr.
Proof.
  intros H1 (pair & failing & Hn & Hf & Htr & Hsuf).
  exists pair, failing. split; [|split; [exact Hf|split; [|exact Hsuf]]].
  - rewrite lookup_app_r by lia.
    replace (length p1 + N - length p1)%nat with N by lia. exact Hn.
  - rewrite take_app_ge by lia.
    replace (length p1 + N - length p1)%nat with N by lia.
    rewrite Htr, H1, flat_map_app, <- !app_assoc. reflexivity.
Qed.

Lemma Completes_app startTime p1 p2 tr0 tr1 tr :
  Completes startTime p1 tr0 tr1 ->
  Completes startTime p2 tr1 tr ->
  Completes startTime (p1 ++ p2) tr0 tr.
Proof.
  unfold Completes. intros H1 H2.
  now rewrite H2, H1, flat_map_app, <- app_assoc.
Qed.

(** Sequencing: the pairs of the first part, then those of the second. *)
Lemma syncs_bind {A B} strict startTime p1 p2 (c : M Event A) (k : A -> M Event B) :
  syncs true startTime p1 c ->
  (forall a, syncs strict startTime p2 (k a)) ->
  syncs strict startTime (p1 ++ p2) (bind c k).
Proof.
  intros Hc Hk tr0. unfold bind.
  specialize (Hc tr0). destruct (c tr0) as [[e|a] tr1]; simpl in Hc.
  - destruct Hc as [[Hs _]|[N HN]]; [discriminate|].
    right. exists N. now apply AbortsAt_app_l.
  - specialize (Hk a tr1). destruct (k a tr1) as [[e|b] tr2]; simpl in *.
    + destruct Hk as [[Hs Hk]|[N HN]].
      * left. split; [exact Hs|]. eapply Completes_app; eassumption.
      * right. exists (length p1 + N)%nat. eapply AbortsAt_app_r; eassumption.
    + eapply Completes_app; eassumption.
Qed.

Lemma syncs_ret {A} strict startTime (a : A) : syncs strict startTime [] (ret a).
Proof. intros tr0. unfold ret, outcome, Completes. simpl. now rewrite app_nil_r. Qed.

(** The loop over the symbols of one session. *)
Lemma syncs_forRange environ session symbols startTime :
  syncs true startTime (map (pair session) symbols)
    (forRange symbols (fun s => syncSessionSymbol environ session s startTime)).
Proof.
  induction symbols as [|s rest IH]; simpl.
  - apply syncs_ret.
  - apply (syncs_bind true startTime [(session, s)]).
    + apply syncs_syncSessionSymbol.
    + intros _. exact IH.
Qed.

Lemma outcome_weaken {A} strict startTime pairs tr0 (out : (error + A) * list Event) :
  outcome strict startTime pairs tr0 out -> outcome false startTime pairs tr0 out.
Proof.
  destruct out as [[e|a] tr]; simpl; [|tauto].
  intros [[_ H]|H]; [left; split; [reflexivity | exact H] | now right].
Qed.

(** Only the engine calls of the history before matter. *)
Lemma outcome_engineCalls {A} strict startTime pairs tr0 tr1
    (out : (error + A) * list Event) :
  engineCalls tr1 = engineCalls tr0 ->
  outcome strict startTime pairs tr1 out -> outcome strict startTime pairs tr0 out.
Proof.
  intros Heq. destruct out as [[e|a] tr]; simpl;
    unfold Completes, AbortsAt; rewrite Heq; tauto.
Qed.

(** The discovery step: its result does not depend on the history, and it
    calls [Init] once exactly when no symbol list is at hand. *)
Lemma symbolsOrDiscover_run environ session symbols tr0 :
  symbolsOrDiscover environ session symbols tr0 =
    (symbolsFor environ session symbols,
     tr0 ++ (if Nat.eqb (length symbols) 0
             then [EvInit (Name session) (InitError session)] else [])).
Proof.
  unfold symbolsFor, symbolsOrDiscover.
  destruct (Nat.eqb (length symbols) 0).
  - unfold findPossibleSymbols, bind, Init.
    destruct (InitError session); reflexivity.
  - unfold ret. simpl. now rewrite app_nil_r.
Qed.

Lemma symbolsOrDiscover_engineCalls environ session symbols tr0 :
  engineCalls (symbolsOrDiscover environ session symbols tr0).2 = engineCalls tr0.
Proof.
  rewrite symbolsOrDiscover_run. simpl. rewrite engineCalls_app.
  destruct (Nat.eqb (length symbols) 0); simpl; now rewrite app_nil_r.
Qed.

(** Discovery followed by the synchronisation of the pairs it yields. *)
Lemma syncs_after_discovery {B} strict startTime environ session symbols
    (pairsOf : list string -> list (ExchangeSession * string))
    (k : list string -> M Event B) :
  (forall syms, syncs strict startTime (pairsOf syms) (k syms)) ->
  syncs false startTime
    (match symbolsFor environ session symbols with
     | inl _ => []
     | inr syms => pairsOf syms
     end)
    (bind (symbolsOrDiscover environ session symbols) k).
Proof.
  intros Hk tr0. unfold bind.
  pose proof (symbolsOrDiscover_engineCalls environ session symbols tr0) as Heng.
  rewrite symbolsOrDiscover_run in *. simpl in Heng.
  destruct (symbolsFor environ session symbols) as [e|syms].
  - left. split; [reflexivity|].
    unfold Completes. simpl. now rewrite app_nil_r.
  - eapply outcome_engineCalls; [exact Heng|].
    eapply outcome_weaken. apply Hk.
Qed.

(** The loop over all sessions processes [pairsAllSessions]. *)
Lemma syncs_syncAllSessions environ sessions symbol symbols startTime :
  syncs false startTime (pairsAllSessions environ sessions symbol symbols)
    (syncAllSessions environ sessions symbol symbols startTime).
Proof.
  revert symbols. induction sessions as [|session rest IH]; intros symbols.
  - apply syncs_ret.
  - simpl.
    apply (syncs_after_discovery false startTime environ session symbols
             (fun syms => map (pair session) syms ++ [(session, symbol)]
                            ++ pairsAllSessions environ rest symbol syms)).
    intros syms. apply syncs_bind; [apply syncs_forRange|].
    intros _. apply syncs_bind; [apply syncs_syncSessionSymbol|].
    intros _. apply IH.
Qed.

(** The orchestrator processes [pairSequence]. *)
Lemma syncs_syncSessions environ sessionName symbol startTime :
  syncs false startTime (pairSequence environ sessionName symbol)
    (syncSessions environ sessionName symbol startTime).
Proof.
  unfold syncSessions, pairSequence. cbv zeta.
  destruct (nonEmpty sessionName).
  - destruct (Session environ sessionName) as [session|].
    + apply (syncs_after_discovery true startTime environ session _
               (fun syms => map (pair session) syms)).
      intros syms. apply syncs_forRange.
    + intros tr0. left. split; [reflexivity|].
      unfold Completes. simpl. now rewrite app_nil_r.
  - apply syncs_syncAllSessions.
Qed.

(** In the loop over all sessions each session is synchronised once more
    after its symbol loop, for the symbol given on the command line: with
    an explicit symbol every pair is processed twice, without one every
    session is also synchronised for the empty symbol. *)
Example pairSequence_all_sessions :
  pairSequence (twoSessions engineOk) "" "BTCUSDT"
    = [(sessionA, "BTCUSDT"); (sessionA, "BTCUSDT");
       (sessionB, "BTCUSDT"); (sessionB, "BTCUSDT")] /\
  pairSequence (twoSessions engineOk) "" ""
    = [(sessionA, "BTCUSDT"); (sessionA, "");
       (sessionB, "BTCUSDT"); (sessionB, "")] /\
  pairSequence (twoSessions engineOk) "b" ""
    = [(sessionB, "ETHUSDT")].
Proof. repeat split; vm_compute; reflexivity. Qed.

(** Once the configuration is loaded and the flags are read,
    [SyncCmd.RunE] is the orchestrator run on the configured sessions from
    the resolved start time. *)
Lemma SyncCmd_RunE_orchestrates {Config} (host : Host Config) flags
    configFile userConfig since sessions startTime sessionName symbol :
  flags !! "config" = Some configFile ->
  configFile <> "" ->
  (forall err, Stat host configFile = Some err -> IsNotExist host err = false) ->
  Load host configFile = inr userConfig ->
  flags !! "since" = Some since ->
  configureDB host = None ->
  AddExchangesFromConfig host userConfig = inr sessions ->
  resolveStartTime (Now host) since = inr startTime ->
  flags !! "session" = Some sessionName ->
  flags !! "symbol" = Some symbol ->
  SyncCmd_RunE host flags
    = syncSessions {| Sessions := sessions; TradeSync := Engine host;
                      rangeOrder := MapOrder host |}
        sessionName symbol startTime.
Proof.
  intros Hconfig Hne Hstat Hload Hsince Hdb Hadd Hstart Hsession Hsymbol.
  assert (Hcheck : match Stat host configFile with
                   | Some err => if IsNotExist host err then Some err else None
                   | None => None
                   end = None).
  { destruct (Stat host configFile) as [err|]; [|reflexivity].
    now rewrite (Hstat err eq_refl). }
  assert (Hlen : Nat.eqb (String.length configFile) 0 = false).
  { destruct configFile; [congruence | reflexivity]. }
  unfold SyncCmd_RunE, GetString.
  rewrite Hconfig. simpl try. rewrite bind_ret_l, Hlen, Hcheck.
  simpl check. rewrite bind_ret_l, Hload. simpl try.
  rewrite bind_ret_l, Hsince. simpl try.
  rewrite bind_ret_l, Hdb. simpl check.
  rewrite bind_ret_l, Hadd. simpl try.
  rewrite bind_ret_l. cbv zeta. rewrite Hstart. simpl try.
  rewrite bind_ret_l, Hsession. simpl try.
  rewrite bind_ret_l, Hsymbol. simpl try.
  now rewrite bind_ret_l.
Qed.

(** * Properties *)

(** C1, as stated, fails: discovery keeps a market whose base currency is
    held with a total below zero.  For the session that owes one BTC the
    result is BTCUSDT, whose base currency has no positive total. *)
Lemma C1_positive_base_refuted :
  exists symbols tr,
    findPossibleSymbols (twoSessions engineOk) sessionShort [] = (inr symbols, tr) /\
    ~ discoversExactly positiveTotal sessionShort symbols.
Proof.
  exists ["BTCUSDT"], [EvInit "short" None]. split; [vm_compute; reflexivity|].
  intros [_ H].
  destruct (proj1 (H "BTCUSDT")) as (m & Hm & _ & _ & b & Hb & Hpos);
    [apply list_elem_of_singleton; reflexivity|].
  apply list_elem_of_singleton in Hm. subst m.
  vm_compute in Hb. injection Hb as <-. vm_compute in Hpos. discriminate.
Qed.

(** C1, amended: when the session's [Init] succeeds, [findPossibleSymbols]
    returns exactly the symbols of the markets whose quote currency is a
    fiat asset (a reference currency held with a positive total) and whose
    base currency is held with a total other than zero; it returns no
    other symbol and no symbol twice. *)
Theorem C1_discovery_nonzero_base environ session tr :
  visitsEachKey environ ->
  InitError session = None ->
  exists symbols tr',
    findPossibleSymbols environ session tr = (inr symbols, tr') /\
    discoversExactly nonzeroTotal session symbols.
Proof.
  intros Horder Hinit.
  destruct (findPossibleSymbols_ok environ session tr Horder Hinit)
    as (symbols & Hrun & Hspec).
  eauto.
Qed.

Lemma C1_discovery_nonzero_base_witness :
  exists symbols tr',
    findPossibleSymbols (twoSessions engineOk) sessionA [] = (inr symbols, tr') /\
    discoversExactly nonzeroTotal sessionA symbols.
Proof.
  apply (C1_discovery_nonzero_base (twoSessions engineOk) sessionA []).
  - intros keys. reflexivity.
  - reflexivity.
Defined.

(** If a sync-engine call fails during a run of the orchestrator, the
    failure is on some position N of the sequence of pairs it processes; the
    engine calls on record are those of pairs before N, each synchronised
    once and in order, followed by the calls of pair N (its trade sync,
    and its order sync when the trade sync returned); the history ends
    there, and the orchestrator returns the error of the failing call. *)
Lemma engine_failure_stops_the_run environ sessionName symbol startTime :
  let out := syncSessions environ sessionName symbol startTime [] in
  let pairs := pairSequence environ sessionName symbol in
  existsb engineFailed out.2 = true ->
  exists N pair e failing,
    pairs !! N = Some pair /\
    failedWith startTime pair e failing /\
    engineCalls out.2 = flat_map (completed startTime) (take N pairs) ++ failing /\
    failing `suffix_of` out.2 /\
    out.1 = inl e.
Proof.
  intros out pairs Hfail.
  pose proof (syncs_syncSessions environ sessionName symbol startTime []) as H.
  fold out pairs in H. destruct out as [[e|[]] tr]; simpl in *.
  - destruct H as [[_ Hc]|[N (pair & failing & Hn & Hf & Hcalls & Hsuf)]].
    + unfold Completes in Hc. simpl in Hc.
      rewrite <- engineFailed_engineCalls, Hc, engineFailed_completed in Hfail.
      discriminate.
    + exists N, pair, e, failing. auto.
  - unfold Completes in H. simpl in H.
    rewrite <- engineFailed_engineCalls, H, engineFailed_completed in Hfail.
    discriminate.
Qed.

(** C2 at a failing input: no session name, the symbol BTCUSDT, the
    sessions a and b, and an engine that fails on b's exchange.  When the
    run stops at the failure on b, the pair (a, BTCUSDT) has been
    synchronised twice: once by the symbol loop and once more by the call
    after it.  The run for the named session a synchronises the pair
    once. *)
Theorem C2_pair_synced_twice_before_failure :
  let environ := twoSessions engineFailsOnMax in
  let out := syncSessions environ "" "BTCUSDT" newYear2022 [] in
  out.1 = inl "rate limited" /\
  out.2 = [EvSyncTrades "binance" "BTCUSDT" newYear2022 None;
           EvSyncOrders "binance" "BTCUSDT" newYear2022 None;
           EvSyncTrades "binance" "BTCUSDT" newYear2022 None;
           EvSyncOrders "binance" "BTCUSDT" newYear2022 None;
           EvSyncTrades "max" "BTCUSDT" newYear2022 (Some "rate limited")] /\
  (syncSessions environ "a" "BTCUSDT" newYear2022 []).2
    = [EvSyncTrades "binance" "BTCUSDT" newYear2022 None;
       EvSyncOrders "binance" "BTCUSDT" newYear2022 None].
Proof. vm_compute. repeat split; reflexivity. Qed.

Lemma quiet_ret {A} (a : A) : quiet (ret a).
Proof. intros tr0. reflexivity. Qed.

Lemma quiet_bind {A B} (c : M Event A) (k : A -> M Event B) :
  quiet c -> (forall a, quiet (k a)) -> quiet (bind c k).
Proof.
  intros Hc Hk tr0. unfold bind. specialize (Hc tr0).
  destruct (c tr0) as [[e|a] tr1]; simpl in *; [exact Hc|].
  now rewrite Hk.
Qed.

Lemma quiet_syncSessionSymbol environ session symbol startTime :
  quiet (syncSessionSymbol environ session symbol startTime).
Proof.
  intros tr0. rewrite syncSessionSymbol_trace. cbv zeta.
  destruct (SyncTrades _ _ _ _ _) as [e|]; simpl.
  - rewrite initCalls_app. simpl. now rewrite app_nil_r.
  - destruct (SyncOrders _ _ _ _ _) as [e|]; simpl;
      rewrite !initCalls_app; simpl; now rewrite !app_nil_r.
Qed.

Lemma quiet_forRange environ session symbols startTime :
  quiet (forRange symbols (fun s => syncSessionSymbol environ session s startTime)).
Proof.
  induction symbols as [|s rest IH]; simpl; [apply quiet_ret|].
  apply quiet_bind; [apply quiet_syncSessionSymbol | intros _; exact IH].
Qed.

Lemma symbolsOrDiscover_given environ session symbols :
  symbols <> [] -> symbolsOrDiscover environ session symbols = ret symbols.
Proof. intros H. unfold symbolsOrDiscover. destruct symbols; [congruence | reflexivity]. Qed.

Lemma quiet_syncAllSessions environ sessions symbol symbols startTime :
  symbols <> [] ->
  quiet (syncAllSessions environ sessions symbol symbols startTime).
Proof.
  intros Hne. induction sessions as [|session rest IH]; simpl; [apply quiet_ret|].
  rewrite symbolsOrDiscover_given by exact Hne. rewrite bind_ret_l.
  apply quiet_bind; [apply quiet_forRange|]. intros _.
  apply quiet_bind; [apply quiet_syncSessionSymbol|]. intros _. exact IH.
Qed.

(** X11: with an explicit symbol the orchestrator never calls discovery: no
    [Init] call is added to the history. *)
Lemma explicit_symbol_skips_discovery environ sessionName symbol startTime tr0 :
  nonEmpty symbol = true ->
  initCalls (syncSessions environ sessionName symbol startTime tr0).2 = initCalls tr0.
Proof.
  intros Hsym. unfold syncSessions. rewrite Hsym.
  destruct (nonEmpty sessionName).
  - destruct (Session environ sessionName) as [session|]; [|reflexivity].
    rewrite symbolsOrDiscover_given by discriminate. rewrite bind_ret_l.
    apply quiet_forRange.
  - apply quiet_syncAllSessions. discriminate.
Qed.

(** C3 at a failing input: two sessions, no session name and no symbol.
    Discovery runs for the first session only; the second session, whose
    own discovery yields ETHUSDT, is never initialised and is synchronised
    with the first session's BTCUSDT. *)
Theorem C3_second_session_not_discovered :
  let environ := twoSessions engineOk in
  let out := syncSessions environ "" "" newYear2022 [] in
  out.1 = inr tt /\
  initCalls out.2 = [EvInit "a" None] /\
  symbolsFor environ sessionA [] = inr ["BTCUSDT"] /\
  symbolsFor environ sessionB [] = inr ["ETHUSDT"] /\
  engineCalls out.2 =
    flat_map (completed newYear2022)
      [(sessionA, "BTCUSDT"); (sessionA, ""); (sessionB, "BTCUSDT"); (sessionB, "")].
Proof. vm_compute. repeat split; reflexivity. Qed.

(** ** One (session, symbol) pair *)

(** C6: [syncSessionSymbol] calls the trade sync first; when it fails the
    error is returned and the order sync is not called; when it returns
    without error the order sync is called next, on a history that already
    holds the completed trade sync, and its error, if any, is returned. *)
Theorem C6_trades_complete_before_orders environ session symbol startTime tr0 :
  let ex := Exchange session in
  let sym := effectiveSymbol session symbol in
  let out := syncSessionSymbol environ session symbol startTime tr0 in
  let tradesDone := tr0 ++ [EvSyncTrades ex sym startTime None] in
  (exists e,
      SyncTrades (TradeSync environ) tr0 ex sym startTime = Some e /\
      out = (inl e, tr0 ++ [EvSyncTrades ex sym startTime (Some e)]))
  \/
  (SyncTrades (TradeSync environ) tr0 ex sym startTime = None /\
   exists r,
      SyncOrders (TradeSync environ) tradesDone ex sym startTime = r /\
      out.2 = tradesDone ++ [EvSyncOrders ex sym startTime r] /\
      out.1 = match r with Some e => inl e | None => inr tt end).
Proof.
  cbv zeta. rewrite syncSessionSymbol_trace. cbv zeta.
  destruct (SyncTrades _ _ _ _ _) as [e|] eqn:H1.
  - left. exists e. auto.
  - right. split; [reflexivity|]. eexists. split; [reflexivity|].
    destruct (SyncOrders _ _ _ _ _); auto.
Qed.

(** C7: for an isolated-margin session, whatever symbol is requested, the
    trade sync is called with the session's isolated-margin symbol, and so
    is the order sync when it is called. *)
Theorem C7_isolated_margin_symbol_wins environ session requested startTime tr0 :
  IsolatedMargin session = true ->
  let X := IsolatedMarginSymbol session in
  let out := syncSessionSymbol environ session requested startTime tr0 in
  exists r1,
    out.2 = tr0 ++ EvSyncTrades (Exchange session) X startTime r1 ::
              match r1 with
              | Some _ => []
              | None =>
                  [EvSyncOrders (Exchange session) X startTime
                     (SyncOrders (TradeSync environ)
                        (tr0 ++ [EvSyncTrades (Exchange session) X startTime None])
                        (Exchange session) X startTime)]
              end.
Proof.
  intros Hiso. cbv zeta. rewrite syncSessionSymbol_trace. cbv zeta.
  unfold effectiveSymbol. rewrite Hiso.
  destruct (SyncTrades _ _ _ _ _) as [e|] eqn:H1.
  - exists (Some e). reflexivity.
  - exists None. destruct (SyncOrders _ _ _ _ _); simpl; now rewrite <- app_assoc.
Qed.

Lemma C7_isolated_margin_symbol_wins_witness :
  let out := syncSessionSymbol (twoSessions engineOk) sessionIsolated "BTCUSDT"
               newYear2022 [] in
  exists r1,
    out.2 = [] ++ EvSyncTrades "binance" "ETHUSDT" newYear2022 r1 ::
              match r1 with
              | Some _ => []
              | None =>
                  [EvSyncOrders "binance" "ETHUSDT" newYear2022
                     (SyncOrders engineOk
                        ([] ++ [EvSyncTrades "binance" "ETHUSDT" newYear2022 None])
                        "binance" "ETHUSDT" newYear2022)]
              end.
Proof.
  apply (C7_isolated_margin_symbol_wins (twoSessions engineOk) sessionIsolated
           "BTCUSDT" newYear2022 []).
  reflexivity.
Defined.

(** ** Start-time resolution *)

Lemma normalizeMonth_spec y m :
  12 * (GoTime.normalizeMonth y m).1 + ((GoTime.normalizeMonth y m).2 - 1)
    = 12 * y + (m - 1) /\
  1 <= (GoTime.normalizeMonth y m).2 <= 12.
Proof.
  unfold GoTime.normalizeMonth. simpl.
  pose proof (Z.div_mod (m - 1) 12). pose proof (Z.mod_pos_bound (m - 1) 12). lia.
Qed.

Lemma daysIn_bounds m y : 28 <= GoTime.daysIn m y <= 31.
Proof.
  unfold GoTime.daysIn.
  destruct (m =? 2); [destruct (GoTime.isLeap y); lia|].
  destruct ((m =? 4) || (m =? 6) || (m =? 9) || (m =? 11)); lia.
Qed.

(** Moving an existing date by whole months: the day stays when the
    month reached has it, and otherwise the days beyond the end of that
    month are counted into the month after it. *)
Lemma AddDate_months now k :
  validDate now ->
  let target := GoTime.normalizeMonth (GoTime.year now) (GoTime.month now + k) in
  let following := GoTime.normalizeMonth target.1 (target.2 + 1) in
  let L := GoTime.daysIn target.2 target.1 in
  GoTime.AddDate now 0 k 0 =
    if GoTime.day now <=? L then
      GoTime.Date target.1 target.2 (GoTime.day now) (GoTime.hour now)
        (GoTime.minute now) (GoTime.second now) (GoTime.nanosecond now)
        (GoTime.location now)
    else
      GoTime.Date following.1 following.2 (GoTime.day now - L) (GoTime.hour now)
        (GoTime.minute now) (GoTime.second now) (GoTime.nanosecond now)
        (GoTime.location now).
Proof.
  intros [_ Hday]. cbv zeta. unfold GoTime.AddDate. rewrite !Z.add_0_r.
  pose proof (daysIn_bounds (GoTime.month now) (GoTime.year now)) as Hlen.
  destruct (GoTime.normalizeMonth (GoTime.year now) (GoTime.month now + k))
    as [y' m'] eqn:Htarget.
  simpl fst. simpl snd. pose proof (daysIn_bounds m' y') as HL.
  cbn [GoTime.normalizeDay].
  destruct (Z.ltb_spec (GoTime.day now) 1) as [Hlt|_]; [lia|].
  destruct (Z.ltb_spec (GoTime.daysIn m' y') (GoTime.day now)) as [Hover|Hfits].
  - destruct (Z.leb_spec (GoTime.day now) (GoTime.daysIn m' y')) as [Hle|_]; [lia|].
    destruct (GoTime.normalizeMonth y' (m' + 1)) as [y'' m''] eqn:Hfollowing.
    pose proof (daysIn_bounds m'' y'') as HL'.
    destruct (Z.to_nat (Z.abs (GoTime.day now))) as [|fuel] eqn:Hfuel; [lia|].
    cbn [GoTime.normalizeDay].
    destruct (Z.ltb_spec (GoTime.day now - GoTime.daysIn m' y') 1) as [Hlt|_]; [lia|].
    destruct (Z.ltb_spec (GoTime.daysIn m'' y'')
                (GoTime.day now - GoTime.daysIn m' y')) as [Hlt|_]; [lia|].
    unfold GoTime.normalizeMonth in Hfollowing. injection Hfollowing as <- <-.
    reflexivity.
  - destruct (Z.leb_spec (GoTime.day now) (GoTime.daysIn m' y')) as [_|Hgt]; [|lia].
    reflexivity.
Qed.

Lemma digit_digitChar k : 0 <= k <= 9 -> GoTime.digit (digitChar k) = Some k.
Proof.
  intros Hk.
  assert (Hcases : k = 0 \/ k = 1 \/ k = 2 \/ k = 3 \/ k = 4 \/ k = 5 \/ k = 6
                   \/ k = 7 \/ k = 8 \/ k = 9) by lia.
  repeat (destruct Hcases as [-> | Hcases]; [reflexivity|]).
  subst k. reflexivity.
Qed.

(** A date written YYYY-MM-DD is read back as that date. *)
Lemma parseDate_formatDate y m d :
  0 <= y <= 9999 -> 1 <= m <= 12 -> 1 <= d <= GoTime.daysIn m y ->
  GoTime.parseDate (formatDate y m d) = Some (y, m, d).
Proof.
  intros Hy Hm Hd. pose proof (daysIn_bounds m y) as HL.
  unfold GoTime.parseDate, formatDate. cbn [list_ascii_of_string].
  change (Ascii.eqb "-" "-") with true. cbn [andb GoTime.number].
  rewrite !digit_digitChar by (Z.to_euclidean_division_equations; lia).
  replace (10 * (10 * (10 * (10 * 0 + y / 1000) + y / 100 mod 10) + y / 10 mod 10)
           + y mod 10) with y by (Z.to_euclidean_division_equations; lia).
  replace (10 * (10 * 0 + m / 10) + m mod 10) with m
    by (Z.to_euclidean_division_equations; lia).
  replace (10 * (10 * 0 + d / 10) + d mod 10) with d
    by (Z.to_euclidean_division_equations; lia).
  replace ((1 <=? m) && (m <=? 12) && (1 <=? d) && (d <=? GoTime.daysIn m y))
    with true; [reflexivity|].
  symmetry. rewrite !andb_true_iff, !Z.leb_le. lia.
Qed.

(** C8, as stated, fails for the default start time: at noon on
    2022-05-31 the start time is noon on 2022-03-03, which is not the same
    day of the month three calendar months earlier (February has no
    31st). *)
Lemma C8_month_end_refuted :
  exists start,
    resolveStartTime endOfMay2022 "" = inr start /\
    start = GoTime.Date 2022 3 3 12 0 0 0 GoTime.Taipei /\
    ~ threeMonthsEarlier endOfMay2022 start.
Proof.
  eexists. split; [reflexivity|]. split; [reflexivity|].
  intros [Hindex _]. vm_compute in Hindex. discriminate.
Qed.

(** C8, amended.  When [--since] is absent the start time is the
    invocation instant moved back by three calendar months with
    [AddDate(0, -3, 0)]: an existing date, at the same time of day in the
    same location; it is the same day of the month exactly three calendar
    months earlier whenever that month has such a day, and otherwise the
    days beyond the end of that month are counted into the month after it.
    When [--since] is a calendar date YYYY-MM-DD the start time is midnight
    of that date in Asia/Taipei, eight hours east of UTC;
    [--since 2022-01-01] gives 2022-01-01T00:00:00+08:00. *)
Theorem C8_start_time_resolution now since :
  (since = "" -> validDate now ->
     exists start,
       resolveStartTime now since = inr start /\
       validDate start /\ sameClock now start /\
       (GoTime.day now <= targetMonthLength now -> threeMonthsEarlier now start) /\
       (targetMonthLength now < GoTime.day now ->
          monthIndex start = monthIndex now - 2 /\
          GoTime.day start = GoTime.day now - targetMonthLength now)) /\
  (forall y m d, GoTime.parseDate since = Some (y, m, d) ->
     resolveStartTime now since = inr (GoTime.Date y m d 0 0 0 0 GoTime.Taipei)) /\
  (forall y m d,
     0 <= y <= 9999 -> 1 <= m <= 12 -> 1 <= d <= GoTime.daysIn m y ->
     resolveStartTime now (formatDate y m d)
       = inr (GoTime.Date y m d 0 0 0 0
                {| GoTime.locName := "Asia/Taipei"; GoTime.utcOffset := 8 * 3600 |})) /\
  resolveStartTime now "2022-01-01"
    = inr (GoTime.Date 2022 1 1 0 0 0 0
             {| GoTime.locName := "Asia/Taipei"; GoTime.utcOffset := 8 * 3600 |}).
Proof.
  assert (Hparsed : forall value y m d, GoTime.parseDate value = Some (y, m, d) ->
            resolveStartTime now value
              = inr (GoTime.Date y m d 0 0 0 0 GoTime.Taipei)).
  { intros value y m d Hparse. unfold resolveStartTime.
    assert (Hne : nonEmpty value = true).
    { destruct value; [discriminate Hparse | reflexivity]. }
    rewrite Hne. simpl. unfold GoTime.ParseInLocation. simpl.
    now rewrite Hparse. }
  split; [|split; [|split]].
  - intros -> Hvalid. eexists. split; [reflexivity|].
    pose proof (AddDate_months now (-3) Hvalid) as Hadd. cbv zeta in Hadd.
    unfold targetMonthLength.
    change (GoTime.month now - 3) with (GoTime.month now + -3).
    pose proof (normalizeMonth_spec (GoTime.year now) (GoTime.month now + -3))
      as [Hidx Hm].
    destruct (GoTime.normalizeMonth (GoTime.year now) (GoTime.month now + -3))
      as [y' m'] eqn:Htarget.
    simpl fst in *. simpl snd in *.
    pose proof (daysIn_bounds m' y') as HL.
    pose proof (normalizeMonth_spec y' (m' + 1)) as [Hidx' Hm'].
    destruct (GoTime.normalizeMonth y' (m' + 1)) as [y'' m''] eqn:Hfollowing.
    simpl fst in *. simpl snd in *.
    pose proof (daysIn_bounds m'' y'') as HL'.
    destruct Hvalid as [Hmonth Hday].
    pose proof (daysIn_bounds (GoTime.month now) (GoTime.year now)) as Hlen.
    rewrite Hadd.
    destruct (Z.leb_spec (GoTime.day now) (GoTime.daysIn m' y')) as [Hfits|Hover].
    + unfold validDate, sameClock, threeMonthsEarlier, monthIndex. simpl.
      repeat split; try reflexivity; try lia.
    + unfold GoTime.normalizeMonth in Hfollowing.
      injection Hfollowing as Hy'' Hm''.
      unfold validDate, sameClock, threeMonthsEarlier, monthIndex. simpl.
      rewrite ?Hy'', ?Hm''.
      repeat split; try reflexivity; try lia.
  - intros y m d. apply Hparsed.
  - intros y m d Hy Hm Hd. apply Hparsed. now apply parseDate_formatDate.
  - reflexivity.
Qed.

Lemma C8_start_time_resolution_witness :
  (exists start,
     resolveStartTime newYear2022 "" = inr start /\
     validDate start /\ sameClock newYear2022 start /\
     (GoTime.day newYear2022 <= targetMonthLength newYear2022 ->
        threeMonthsEarlier newYear2022 start) /\
     (targetMonthLength newYear2022 < GoTime.day newYear2022 ->
        monthIndex start = monthIndex newYear2022 - 2 /\
        GoTime.day start = GoTime.day newYear2022 - targetMonthLength newYear2022)) /\
  resolveStartTime newYear2022 "2021-12-31"
    = inr (GoTime.Date 2021 12 31 0 0 0 0 GoTime.Taipei) /\
  resolveStartTime newYear2022 (formatDate 2024 2 29)
    = inr (GoTime.Date 2024 2 29 0 0 0 0
             {| GoTime.locName := "Asia/Taipei"; GoTime.utcOffset := 8 * 3600 |}).
Proof.
  split; [|split].
  - apply (proj1 (C8_start_time_resolution newYear2022 "")); [reflexivity|].
    unfold validDate. simpl. vm_compute. repeat split; discriminate.
  - apply (proj1 (proj2 (C8_start_time_resolution newYear2022 "2021-12-31")) 2021 12 31).
    reflexivity.
  - apply (proj1 (proj2 (proj2 (C8_start_time_resolution newYear2022 ""))) 2024 2 29).
    + lia.
    + lia.
    + vm_compute. split; discriminate.
Defined.

(** ** The FTX stream *)

Section StreamLifetime.

Import Ftx.

(** [Subscribe] does not look at the outcome of its channel test. *)
Lemma Subscribe_queues s channel symbol :
  Subscribe s channel symbol =
    {| wsService :=
         wsSubscribe (wsService s)
           {| Operation := subscribe; Channel := Some orderbook;
              Market := TrimUpperString symbol; Login := None |};
       publicOnly := publicOnly s |}.
Proof. unfold Subscribe. now destruct (negb _). Qed.

(** No call replaces the credentials or the transport. *)
Lemma step_service s c :
  key (wsService (step s c)) = key (wsService s) /\
  secret (wsService (step s c)) = secret (wsService s) /\
  dial (wsService (step s c)) = dial (wsService s).
Proof.
  destruct c; unfold step.
  - auto.
  - unfold Connect. destruct (publicOnly s =? 0); simpl; auto.
  - rewrite Subscribe_queues. simpl. auto.
  - unfold Close. simpl. auto.
Qed.

Lemma run_service s cs :
  key (wsService (run s cs)) = key (wsService s) /\
  secret (wsService (run s cs)) = secret (wsService s) /\
  dial (wsService (run s cs)) = dial (wsService s).
Proof.
  revert s. induction cs as [|c rest IH]; intros s; simpl; [auto|].
  destruct (IH (step s c)) as (-> & -> & ->). apply step_service.
Qed.

(** Only [SetPublicOnly] writes the flag. *)
Lemma run_publicOnly s cs :
  forallb (fun c => negb (isSetPublicOnly c)) cs = true ->
  publicOnly (run s cs) = publicOnly s.
Proof.
  revert s. induction cs as [|c rest IH]; intros s; simpl; [reflexivity|].
  intros [Hc Hrest]%andb_prop. rewrite IH by exact Hrest.
  destruct c; unfold step.
  - discriminate.
  - unfold Connect. destruct (publicOnly s =? 0); reflexivity.
  - rewrite Subscribe_queues. reflexivity.
  - reflexivity.
Qed.

(** Once the flag is set, no call queues a login request, and the flag
    stays set. *)
Lemma step_public s c :
  publicOnly s <> 0 ->
  publicOnly (step s c) <> 0 /\
  List.filter isLogin (calls (wsService (step s c)))
    = List.filter isLogin (calls (wsService s)).
Proof.
  intros Hpub. destruct c; unfold step; rewrite ?Subscribe_queues; simpl.
  - split; [discriminate | reflexivity].
  - unfold Connect. destruct (Z.eqb_spec (publicOnly s) 0) as [H0|_]; [contradiction|].
    simpl. split; [exact Hpub|].
    rewrite List.filter_app. simpl. now rewrite app_nil_r.
  - split; [exact Hpub|].
    rewrite List.filter_app. simpl. now rewrite app_nil_r.
  - split; [exact Hpub|].
    rewrite List.filter_app. simpl. now rewrite app_nil_r.
Qed.

Lemma run_public s cs :
  publicOnly s <> 0 ->
  publicOnly (run s cs) <> 0 /\
  List.filter isLogin (calls (wsService (run s cs)))
    = List.filter isLogin (calls (wsService s)).
Proof.
  revert s. induction cs as [|c rest IH]; intros s Hpub; simpl; [auto|].
  destruct (step_public s c Hpub) as [Hpub' Heq].
  destruct (IH (step s c) Hpub') as [Hfin Heq'].
  split; [exact Hfin | now rewrite Heq'].
Qed.

End StreamLifetime.

(** C4: after [SetPublicOnly], whatever calls follow on the stream, among
    them any number of [Connect] calls, no login request is queued; on a
    stream made by [NewStream] on which [SetPublicOnly] was never called,
    a [Connect] call queues one login request, built from the key, the
    secret and the current time, and then establishes the transport. *)
Theorem C4_public_only_never_logs_in :
  (forall s cs,
     List.filter Ftx.isLogin (Ftx.calls (Ftx.wsService (Ftx.run (Ftx.SetPublicOnly s) cs)))
       = List.filter Ftx.isLogin (Ftx.calls (Ftx.wsService s))) /\
  (forall key secret dial hangup cs now,
     forallb (fun c => negb (Ftx.isSetPublicOnly c)) cs = true ->
     let s := Ftx.run (Ftx.NewStream key secret dial hangup) cs in
     let queued := Ftx.calls (Ftx.wsService s)
                     ++ [Ftx.WsSubscribe (Ftx.newLoginRequest key secret now)] in
     Ftx.calls (Ftx.wsService (Ftx.Connect s now).2)
       = queued ++ [Ftx.WsConnect (dial queued)] /\
     (Ftx.Connect s now).1 = dial queued).
Proof.
  split.
  - intros s cs.
    destruct (run_public (Ftx.SetPublicOnly s) cs) as [_ H]; [discriminate|].
    exact H.
  - intros key secret dial hangup cs now Hcs s queued.
    pose proof (run_publicOnly (Ftx.NewStream key secret dial hangup) cs Hcs) as Hpub.
    destruct (run_service (Ftx.NewStream key secret dial hangup) cs) as (Hk & Hs & Hd).
    fold s in Hpub, Hk, Hs, Hd. simpl in Hpub, Hk, Hs, Hd.
    unfold Ftx.Connect. rewrite Hpub. simpl. rewrite Hk, Hs, Hd.
    split; reflexivity.
Qed.

Lemma C4_public_only_never_logs_in_witness :
  let s := Ftx.run freshStream [Ftx.CallSubscribe Ftx.types.BookChannel "btc-usdt"] in
  let queued := Ftx.calls (Ftx.wsService s)
                  ++ [Ftx.WsSubscribe (Ftx.newLoginRequest "key" "secret" newYear2022)] in
  Ftx.calls (Ftx.wsService (Ftx.Connect s newYear2022).2)
    = queued ++ [Ftx.WsConnect (transportOk queued)] /\
  (Ftx.Connect s newYear2022).1 = transportOk queued.
Proof.
  apply (proj2 C4_public_only_never_logs_in "key" "secret" transportOk transportOk
           [Ftx.CallSubscribe Ftx.types.BookChannel "btc-usdt"] newYear2022).
  reflexivity.
Defined.

Lemma trimLeft_split (cs : list ascii) :
  exists pre : list ascii,
    cs = pre ++ Ftx.trimLeft cs /\
    Forall (fun c => Ftx.isSpace c = true) pre /\
    startsClean (Ftx.trimLeft cs).
Proof.
  induction cs as [|c rest (pre & Heq & Hpre & Hclean)]; simpl.
  - exists []. repeat split. constructor.
  - destruct (Ftx.isSpace c) eqn:Hc.
    + exists (c :: pre). split; [simpl; now rewrite <- Heq|].
      split; [now constructor | exact Hclean].
    + exists []. split; [reflexivity|]. split; [constructor | exact Hc].
Qed.

(** [TrimUpperString] drops the white space around the symbol and
    uppercases what is left. *)
Lemma TrimUpperString_spec original :
  trimmedUppercased original (Ftx.TrimUpperString original).
Proof.
  unfold trimmedUppercased, Ftx.TrimUpperString.
  set (cs := list_ascii_of_string original).
  destruct (trimLeft_split cs) as (pre & Hcs & Hpre & Hclean1).
  destruct (trimLeft_split (rev (Ftx.trimLeft cs))) as (post' & Hrev & Hpost & Hclean2).
  set (l2 := Ftx.trimLeft (rev (Ftx.trimLeft cs))) in *.
  assert (Hl1 : Ftx.trimLeft cs = rev l2 ++ rev post').
  { rewrite <- rev_app_distr, <- Hrev. symmetry. apply rev_involutive. }
  exists pre, (rev l2), (rev post'). repeat split.
  - rewrite <- Hl1. exact Hcs.
  - exact Hpre.
  - apply Forall_rev. exact Hpost.
  - rewrite Hl1 in Hclean1. destruct (rev l2); [exact I | exact Hclean1].
  - rewrite rev_involutive. exact Hclean2.
Qed.

(** C5 at a failing input: [Subscribe] with the trade channel, which is
    not the order-book channel, queues an order-book subscription all the
    same; the channel argument has no effect on what is queued. *)
Theorem C5_unsupported_channel_still_subscribes :
  String.eqb "trade" Ftx.types.BookChannel = false /\
  Ftx.calls (Ftx.wsService (Ftx.Subscribe freshStream "trade" "btc-usdt"))
    = [Ftx.WsSubscribe
         {| Ftx.Operation := Ftx.subscribe; Ftx.Channel := Some Ftx.orderbook;
            Ftx.Market := "BTC-USDT"; Ftx.Login := None |}] /\
  (forall s channel symbol,
     Ftx.Subscribe s channel symbol = Ftx.Subscribe s Ftx.types.BookChannel symbol).
Proof.
  split; [reflexivity|]. split; [reflexivity|].
  intros s channel symbol. now rewrite !Subscribe_queues.
Qed.

(** C9: a [Subscribe] call with the order-book channel queues one request
    and nothing else: operation subscribe, channel order book, and as
    market the symbol trimmed and uppercased; "ltc-usdt" gives
    "LTC-USDT". *)
Theorem C9_subscribe_book_enqueues_one s symbol :
  Ftx.calls (Ftx.wsService (Ftx.Subscribe s Ftx.types.BookChannel symbol))
    = Ftx.calls (Ftx.wsService s)
        ++ [Ftx.WsSubscribe
              {| Ftx.Operation := Ftx.subscribe; Ftx.Channel := Some Ftx.orderbook;
                 Ftx.Market := Ftx.TrimUpperString symbol; Ftx.Login := None |}] /\
  Ftx.publicOnly (Ftx.Subscribe s Ftx.types.BookChannel symbol) = Ftx.publicOnly s /\
  trimmedUppercased symbol (Ftx.TrimUpperString symbol) /\
  Ftx.TrimUpperString "ltc-usdt" = "LTC-USDT" /\
  Ftx.TrimUpperString "  ltc-usdt " = "LTC-USDT".
Proof.
  rewrite Subscribe_queues. simpl.
  split; [reflexivity|]. split; [reflexivity|].
  split; [apply TrimUpperString_spec|]. split; reflexivity.
Qed.

(** ** The KuCoin cancel command *)

(** C10: with both flags defined, a non-empty [--order-id] is put on the
    request and [--client-order-id] is left off, whatever its value; with
    an empty [--order-id] a non-empty [--client-order-id] is put on the
    request; in both cases one request is issued.  With both empty the
    command fails and issues no request. *)
Theorem C10_order_id_takes_precedence exchange flags oid cid tr0 :
  flags !! "order-id" = Some oid ->
  flags !! "client-order-id" = Some cid ->
  let out := Kucoin.cancelOrderCmd_RunE exchange flags tr0 in
  let issued req := tr0 ++ [Kucoin.EvDo req (exchange tr0 req)] in
  (oid <> "" ->
     out.2 = issued {| Kucoin.orderID := Some oid; Kucoin.clientOrderID := None |}) /\
  (oid = "" -> cid <> "" ->
     out.2 = issued {| Kucoin.orderID := None; Kucoin.clientOrderID := Some cid |}) /\
  (oid = "" -> cid = "" ->
     out = (inl "either order id or client order id is required", tr0)).
Proof.
  intros Hoid Hcid out issued. subst out issued.
  unfold Kucoin.cancelOrderCmd_RunE, GetString.
  rewrite Hoid, Hcid. simpl try. rewrite !bind_ret_l.
  assert (Hempty : forall x, nonEmpty x = true <-> x <> "").
  { intros x. unfold nonEmpty. destruct (String.eqb_spec x ""); simpl; split;
      congruence. }
  split; [|split].
  - intros Hne. apply Hempty in Hne. rewrite Hne, bind_ret_l.
    unfold bind, ret, Kucoin.Do, try. simpl.
    destruct (exchange tr0 _); reflexivity.
  - intros -> Hne. apply Hempty in Hne.
    change (nonEmpty "") with false. cbv iota. rewrite Hne, bind_ret_l.
    unfold bind, ret, Kucoin.Do, try. simpl.
    destruct (exchange tr0 _); reflexivity.
  - intros -> ->. reflexivity.
Qed.

Lemma C10_order_id_takes_precedence_witness :
  let out := Kucoin.cancelOrderCmd_RunE exchangeOk (cancelFlags "o-1" "c-1") [] in
  let issued req := [] ++ [Kucoin.EvDo req (exchangeOk [] req)] in
  ("o-1" <> "" ->
     out.2 = issued {| Kucoin.orderID := Some "o-1"; Kucoin.clientOrderID := None |}) /\
  ("o-1" = "" -> "c-1" <> "" ->
     out.2 = issued {| Kucoin.orderID := None; Kucoin.clientOrderID := Some "c-1" |}) /\
  ("o-1" = "" -> "c-1" = "" ->
     out = (inl "either order id or client order id is required", [])).
Proof.
  apply (C10_order_id_takes_precedence exchangeOk (cancelFlags "o-1" "c-1")
           "o-1" "c-1" []); reflexivity.
Defined.

(** * Further properties of the sync command *)

Lemma adds_ret {A} P (a : A) : adds P (ret a).
Proof. intros tr0. exists []. split; [simpl; now rewrite app_nil_r | constructor]. Qed.

Lemma adds_bind {A B} P (c : M Event A) (k : A -> M Event B) :
  adds P c -> (forall a, adds P (k a)) -> adds P (bind c k).
Proof.
  intros Hc Hk tr0. unfold bind.
  destruct (Hc tr0) as (n1 & H1 & HP1).
  destruct (c tr0) as [[e|a] tr1]; simpl in H1; subst tr1.
  - exists n1. auto.
  - destruct (Hk a (tr0 ++ n1)) as (n2 & H2 & HP2).
    exists (n1 ++ n2). rewrite H2, app_assoc. split; [reflexivity|].
    apply Forall_app. auto.
Qed.

Lemma adds_Init P session :
  P (EvInit (Name session) (InitError session)) -> adds P (Init session).
Proof.
  intros HP tr0. exists [EvInit (Name session) (InitError session)].
  unfold Init. split; [destruct (InitError session); reflexivity|].
  constructor; [exact HP | constructor].
Qed.

Lemma adds_syncSessionSymbol P environ session symbol startTime :
  (forall r, P (EvSyncTrades (Exchange session) (effectiveSymbol session symbol)
                 startTime r)) ->
  (forall r, P (EvSyncOrders (Exchange session) (effectiveSymbol session symbol)
                 startTime r)) ->
  adds P (syncSessionSymbol environ session symbol startTime).
Proof.
  intros HT HO tr0. rewrite syncSessionSymbol_trace. cbv zeta.
  destruct (SyncTrades _ _ _ _ _) as [e|].
  - eexists. split; [reflexivity|]. constructor; [apply HT | constructor].
  - destruct (SyncOrders _ _ _ _ _) as [e|]; simpl; rewrite <- app_assoc;
      (eexists; split; [reflexivity|]);
      (constructor; [apply HT | constructor; [apply HO | constructor]]).
Qed.

Lemma adds_forRange P environ session symbols startTime :
  (forall s, adds P (syncSessionSymbol environ session s startTime)) ->
  adds P (forRange symbols (fun s => syncSessionSymbol environ session s startTime)).
Proof.
  intros Hs. induction symbols as [|s rest IH]; simpl; [apply adds_ret|].
  apply adds_bind; [apply Hs | intros _; exact IH].
Qed.

Lemma adds_symbolsOrDiscover P environ session symbols :
  P (EvInit (Name session) (InitError session)) ->
  adds P (symbolsOrDiscover environ session symbols).
Proof.
  intros HP tr0. rewrite symbolsOrDiscover_run. simpl.
  eexists. split; [reflexivity|].
  destruct (Nat.eqb (length symbols) 0); [|constructor].
  constructor; [exact HP | constructor].
Qed.

(** The run for one named session, whatever [P] its events satisfy. *)
Lemma adds_named_session P environ sessionName symbol startTime session :
  nonEmpty sessionName = true ->
  Session environ sessionName = Some session ->
  P (EvInit (Name session) (InitError session)) ->
  (forall s, adds P (syncSessionSymbol environ session s startTime)) ->
  adds P (syncSessions environ sessionName symbol startTime).
Proof.
  intros Hname Hfound HInit Hsync. unfold syncSessions. rewrite Hname, Hfound.
  apply adds_bind; [now apply adds_symbolsOrDiscover|].
  intros syms. now apply adds_forRange.
Qed.

(** X1: [stringSliceContains] answers whether the needle is an element of
    the slice. *)
Theorem stringSliceContains_iff slice needle :
  stringSliceContains slice needle = true <-> In needle slice.
Proof.
  rewrite stringSliceContains_spec. apply list_elem_of_In.
Qed.

(** X2: with [--session], every call the command makes is on that
    session: it initialises no other session and passes no other
    session's exchange to the sync engine. *)
Theorem named_session_touches_no_other environ sessionName symbol startTime session :
  nonEmpty sessionName = true ->
  Session environ sessionName = Some session ->
  Forall (concerns session) (syncSessions environ sessionName symbol startTime []).2.
Proof.
  intros Hname Hfound.
  destruct (adds_named_session (concerns session) environ sessionName symbol
              startTime session Hname Hfound) with (tr0 := @nil Event)
    as (new & -> & Hnew).
  - reflexivity.
  - intros s. apply adds_syncSessionSymbol; intros r; reflexivity.
  - exact Hnew.
Qed.

Lemma named_session_touches_no_other_witness :
  Forall (concerns sessionB) (syncSessions (twoSessions engineOk) "b" "" newYear2022 []).2.
Proof.
  apply (named_session_touches_no_other (twoSessions engineOk) "b" "" newYear2022 sessionB);
    reflexivity.
Defined.

(** X3: a run for a named isolated-margin session never asks the engine
    for any symbol but the session's isolated-margin symbol, whether the
    symbols come from the command line or from discovery. *)
Theorem isolated_session_syncs_one_symbol environ sessionName symbol startTime session :
  nonEmpty sessionName = true ->
  Session environ sessionName = Some session ->
  IsolatedMargin session = true ->
  Forall (syncsOnly (IsolatedMarginSymbol session))
    (syncSessions environ sessionName symbol startTime []).2.
Proof.
  intros Hname Hfound Hiso.
  destruct (adds_named_session (syncsOnly (IsolatedMarginSymbol session)) environ
              sessionName symbol startTime session Hname Hfound) with (tr0 := @nil Event)
    as (new & -> & Hnew).
  - exact I.
  - intros s. apply adds_syncSessionSymbol; intros r;
      unfold effectiveSymbol; rewrite Hiso; reflexivity.
  - exact Hnew.
Qed.

Lemma isolated_session_syncs_one_symbol_witness :
  Forall (syncsOnly "ETHUSDT")
    (syncSessions (withMargin engineOk) "margin" "" newYear2022 []).2.
Proof.
  apply (isolated_session_syncs_one_symbol (withMargin engineOk) "margin" ""
           newYear2022 sessionIsolated); reflexivity.
Defined.

(** X4: for a session that is not an isolated-margin session,
    [syncSessionSymbol] passes the requested symbol itself to the trade
    sync and, when it is reached, to the order sync. *)
Theorem plain_session_keeps_symbol environ session requested startTime tr0 :
  IsolatedMargin session = false ->
  let out := syncSessionSymbol environ session requested startTime tr0 in
  exists r1,
    out.2 = tr0 ++ EvSyncTrades (Exchange session) requested startTime r1 ::
              match r1 with
              | Some _ => []
              | None =>
                  [EvSyncOrders (Exchange session) requested startTime
                     (SyncOrders (TradeSync environ)
                        (tr0 ++ [EvSyncTrades (Exchange session) requested startTime None])
                        (Exchange session) requested startTime)]
              end.
Proof.
  intros Hiso. cbv zeta. rewrite syncSessionSymbol_trace. cbv zeta.
  unfold effectiveSymbol. rewrite Hiso.
  destruct (SyncTrades _ _ _ _ _) as [e|] eqn:H1.
  - exists (Some e). reflexivity.
  - exists None. destruct (SyncOrders _ _ _ _ _); simpl; now rewrite <- app_assoc.
Qed.

Lemma plain_session_keeps_symbol_witness :
  let out := syncSessionSymbol (twoSessions engineOk) sessionA "ETHUSDT" newYear2022 [] in
  exists r1,
    out.2 = [] ++ EvSyncTrades "binance" "ETHUSDT" newYear2022 r1 ::
              match r1 with
              | Some _ => []
              | None =>
                  [EvSyncOrders "binance" "ETHUSDT" newYear2022
                     (SyncOrders engineOk
                        ([] ++ [EvSyncTrades "binance" "ETHUSDT" newYear2022 None])
                        "binance" "ETHUSDT" newYear2022)]
              end.
Proof.
  apply (plain_session_keeps_symbol (twoSessions engineOk) sessionA "ETHUSDT"
           newYear2022 []).
  reflexivity.
Defined.

(** X5: when the orchestrator returns without error, the engine calls on
    record are the trade sync and the order sync of every pair of the
    sequence it processes, once each, in order and all without error. *)
Theorem run_success_syncs_every_pair environ sessionName symbol startTime :
  let out := syncSessions environ sessionName symbol startTime [] in
  out.1 = inr tt ->
  engineCalls out.2
    = flat_map (completed startTime) (pairSequence environ sessionName symbol).
Proof.
  intros out Hok.
  pose proof (syncs_syncSessions environ sessionName symbol startTime []) as H.
  fold out in H. destruct out as [[e|[]] tr]; simpl in *; [discriminate|].
  exact H.
Qed.

Lemma run_success_syncs_every_pair_witness :
  let out := syncSessions (twoSessions engineOk) "" "BTCUSDT" newYear2022 [] in
  engineCalls out.2
    = flat_map (completed newYear2022) (pairSequence (twoSessions engineOk) "" "BTCUSDT").
Proof.
  apply (run_success_syncs_every_pair (twoSessions engineOk) "" "BTCUSDT" newYear2022).
  reflexivity.
Defined.

Lemma syncAllSessions_trailing environ sessions symbol symbols startTime tr0 tr :
  syncAllSessions environ sessions symbol symbols startTime tr0 = (inr tt, tr) ->
  forall s, s ∈ sessions ->
    (s, symbol) ∈ pairsAllSessions environ sessions symbol symbols.
Proof.
  revert symbols tr0.
  induction sessions as [|session rest IH]; intros symbols tr0 Hrun s Hin.
  - inversion Hin.
  - simpl in Hrun. unfold bind at 1 in Hrun.
    rewrite symbolsOrDiscover_run in Hrun. simpl.
    destruct (symbolsFor environ session symbols) as [e|syms]; [discriminate|].
    unfold bind at 1 in Hrun.
    destruct (forRange syms _ _) as [[e|[]] tr2]; [discriminate|].
    unfold bind at 1 in Hrun.
    destruct (syncSessionSymbol environ session symbol startTime tr2)
      as [[e|[]] tr3]; [discriminate|].
    apply elem_of_app. right. apply elem_of_cons.
    apply elem_of_cons in Hin as [->|Hin].
    + left. reflexivity.
    + right. eapply IH; eassumption.
Qed.

(** X7: without [--session], a run that returns without error has
    synchronised every configured session for the symbol of the command
    line (replaced by the isolated-margin symbol where that applies), in
    addition to the symbols of its symbol list; when no [--symbol] was
    given that symbol is the empty string. *)
Theorem all_sessions_sync_command_line_symbol environ symbol startTime :
  let out := syncSessions environ "" symbol startTime [] in
  out.1 = inr tt ->
  forall s, s ∈ Sessions environ ->
    EvSyncTrades (Exchange s) (effectiveSymbol s symbol) startTime None ∈ out.2 /\
    EvSyncOrders (Exchange s) (effectiveSymbol s symbol) startTime None ∈ out.2.
Proof.
  intros out Hok s Hs.
  assert (Hcalls : engineCalls out.2
            = flat_map (completed startTime) (pairSequence environ "" symbol)).
  { pose proof (syncs_syncSessions environ "" symbol startTime []) as H.
    fold out in H. destruct out as [[e|[]] tr]; simpl in *; [discriminate | exact H]. }
  assert (Hpair : (s, symbol) ∈ pairSequence environ "" symbol).
  { unfold pairSequence. simpl.
    subst out. unfold syncSessions in Hok. simpl in Hok.
    destruct (syncAllSessions environ (Sessions environ) symbol
                (if nonEmpty symbol then [symbol] else []) startTime [])
      as [[e|[]] tr] eqn:Hrun; [discriminate|].
    eapply syncAllSessions_trailing; eassumption. }
  assert (Hin : forall ev, In ev (completed startTime (s, symbol)) -> ev ∈ out.2).
  { intros ev Hev. apply list_elem_of_In.
    assert (Hf : In ev (engineCalls out.2)).
    { rewrite Hcalls. apply in_flat_map. exists (s, symbol).
      split; [now apply list_elem_of_In | exact Hev]. }
    unfold engineCalls in Hf. apply filter_In in Hf. tauto. }
  split; apply Hin; simpl; auto.
Qed.

Lemma all_sessions_sync_command_line_symbol_witness :
  let out := syncSessions (twoSessions engineOk) "" "" newYear2022 [] in
  EvSyncTrades (Exchange sessionB) (effectiveSymbol sessionB "") newYear2022 None ∈ out.2 /\
  EvSyncOrders (Exchange sessionB) (effectiveSymbol sessionB "") newYear2022 None ∈ out.2.
Proof.
  apply (all_sessions_sync_command_line_symbol (twoSessions engineOk) "" newYear2022).
  - reflexivity.
  - right. left.
Defined.

(** X8: with [--session], the session is initialised once when no
    [--symbol] is given and never when one is given; if that [Init]
    fails, its error is returned and the engine is never called. *)
Theorem named_session_init_once environ sessionName symbol startTime session :
  nonEmpty sessionName = true ->
  Session environ sessionName = Some session ->
  let out := syncSessions environ sessionName symbol startTime [] in
  initCalls out.2
    = (if nonEmpty symbol then [] else [EvInit (Name session) (InitError session)]) /\
  (forall e, symbol = "" -> InitError session = Some e ->
     out = (inl e, [EvInit (Name session) (Some e)])).
Proof.
  intros Hname Hfound out. subst out. unfold syncSessions. rewrite Hname, Hfound.
  split.
  - unfold bind at 1. rewrite symbolsOrDiscover_run.
    destruct (nonEmpty symbol) eqn:Hsym.
    + exact (quiet_forRange environ session [symbol] startTime []).
    + destruct (symbolsFor environ session []) as [e|syms]; [reflexivity|].
      exact (quiet_forRange environ session syms startTime
               [EvInit (Name session) (InitError session)]).
  - intros e -> Hinit. simpl. unfold bind at 1.
    rewrite symbolsOrDiscover_run. simpl.
    unfold symbolsFor, symbolsOrDiscover. simpl.
    rewrite findPossibleSymbols_err with (e := e) by exact Hinit.
    simpl. now rewrite Hinit.
Qed.

Lemma named_session_init_once_witness :
  let out := syncSessions (withDown engineOk) "down" "" newYear2022 [] in
  initCalls out.2
    = (if nonEmpty "" then [] else [EvInit "down" (Some "connection refused")]) /\
  (forall e, "" = "" -> Some "connection refused" = Some e ->
     out = (inl e, [EvInit "down" (Some e)])).
Proof.
  apply (named_session_init_once (withDown engineOk) "down" "" newYear2022 sessionDown);
    reflexivity.
Defined.

(** X9: when no configured session has the name given with [--session],
    the command fails with "session <name> not found" and calls neither
    [Init] nor the sync engine. *)
Theorem unknown_session_is_an_error environ sessionName symbol startTime tr0 :
  sessionName <> "" ->
  (forall s, s ∈ Sessions environ -> Name s <> sessionName) ->
  syncSessions environ sessionName symbol startTime tr0
    = (inl ("session " +:+ sessionName +:+ " not found"), tr0).
Proof.
  intros Hne Hnone. unfold syncSessions.
  assert (Hname : nonEmpty sessionName = true).
  { unfold nonEmpty. destruct (String.eqb_spec sessionName ""); [contradiction | reflexivity]. }
  rewrite Hname.
  assert (Hfind : Session environ sessionName = None).
  { unfold Session. induction (Sessions environ) as [|s rest IH]; [reflexivity|].
    simpl. destruct (String.eqb_spec (Name s) sessionName) as [Heq|_].
    - exfalso. apply (Hnone s); [left | exact Heq].
    - apply IH. intros s' Hs'. apply Hnone. now right. }
  rewrite Hfind. reflexivity.
Qed.

Lemma unknown_session_is_an_error_witness :
  syncSessions (twoSessions engineOk) "kucoin" "" newYear2022 []
    = (inl ("session " +:+ "kucoin" +:+ " not found"), []).
Proof.
  apply (unknown_session_is_an_error (twoSessions engineOk) "kucoin" "" newYear2022 []).
  - discriminate.
  - intros s Hs. apply elem_of_cons in Hs as [->|Hs]; [discriminate|].
    apply list_elem_of_singleton in Hs. subst s. discriminate.
Defined.

(** X10: a session that holds none of the reference currencies with a
    positive total discovers no symbol, whatever its markets and its other
    balances are. *)
Theorem no_fiat_asset_no_symbol environ session tr :
  visitsEachKey environ ->
  InitError session = None ->
  (forall c, c ∈ fiatCurrencies -> ~ positiveTotal (AccountBalances session) c) ->
  (findPossibleSymbols environ session tr).1 = inr [].
Proof.
  intros Horder Hinit Hnone.
  destruct (findPossibleSymbols_ok environ session tr Horder Hinit)
    as (symbols & -> & _ & Hsyms).
  simpl. f_equal. apply elem_of_nil_inv. intros sym Hsym.
  apply Hsyms in Hsym as (m & _ & _ & [Hfiat Hpos] & _).
  exact (Hnone _ Hfiat Hpos).
Qed.

Lemma no_fiat_asset_no_symbol_witness :
  (findPossibleSymbols (twoSessions engineOk) sessionCrypto []).1 = inr [].
Proof.
  apply (no_fiat_asset_no_symbol (twoSessions engineOk) sessionCrypto []).
  - intros keys. reflexivity.
  - reflexivity.
  - intros c Hc (b & Hb & Hpos).
    repeat (apply elem_of_cons in Hc as [->|Hc]; [vm_compute in Hb; discriminate|]).
    inversion Hc.
Defined.

Lemma explicit_symbol_skips_discovery_witness :
  initCalls (syncSessions (twoSessions engineOk) "" "BTCUSDT" newYear2022 []).2
    = initCalls [].
Proof.
  apply (explicit_symbol_skips_discovery (twoSessions engineOk) "" "BTCUSDT"
           newYear2022 []).
  reflexivity.
Defined.

Lemma bind_throw_l {Ev A B} (e : error) (k : A -> M Ev B) : bind (throw e) k = throw e.
Proof. reflexivity. Qed.

(** X14: [SyncCmd.RunE] calls a session's [Init] or the sync engine only
    after the whole set-up went through: [--config] names a file that
    [os.Stat] does not report missing, the configuration loads, the
    database and the exchanges are configured, the start time resolves and
    the flags are defined; from there on it is the orchestrator run on
    the configured sessions. *)
Theorem RunE_calls_only_after_setup {Config} (host : Host Config) flags tr0 :
  let out := SyncCmd_RunE host flags tr0 in
  out.2 <> tr0 ->
  exists configFile userConfig since sessions startTime sessionName symbol,
    flags !! "config" = Some configFile /\ configFile <> "" /\
    (forall err, Stat host configFile = Some err -> IsNotExist host err = false) /\
    Load host configFile = inr userConfig /\
    flags !! "since" = Some since /\
    configureDB host = None /\
    AddExchangesFromConfig host userConfig = inr sessions /\
    resolveStartTime (Now host) since = inr startTime /\
    flags !! "session" = Some sessionName /\
    flags !! "symbol" = Some symbol /\
    out = syncSessions {| Sessions := sessions; TradeSync := Engine host;
                          rangeOrder := MapOrder host |}
            sessionName symbol startTime tr0.
Proof.
  intros out. subst out. unfold SyncCmd_RunE, GetString.
  destruct (flags !! "config") as [configFile|] eqn:Hconfig; simpl try;
    [rewrite bind_ret_l | intros H; now contradiction H].
  destruct (Nat.eqb (String.length configFile) 0) eqn:Hlen;
    [intros H; now contradiction H|].
  destruct (match Stat host configFile with
            | Some err => if IsNotExist host err then Some err else None
            | None => None
            end) as [err|] eqn:Hstat; simpl check;
    [intros H; now contradiction H | rewrite bind_ret_l].
  destruct (Load host configFile) as [err|userConfig] eqn:Hload; simpl try;
    [intros H; now contradiction H | rewrite bind_ret_l].
  destruct (flags !! "since") as [since|] eqn:Hsince; simpl try;
    [rewrite bind_ret_l | intros H; now contradiction H].
  destruct (configureDB host) as [err|] eqn:Hdb; simpl check;
    [intros H; now contradiction H | rewrite bind_ret_l].
  destruct (AddExchangesFromConfig host userConfig) as [err|sessions] eqn:Hadd;
    simpl try; [intros H; now contradiction H | rewrite bind_ret_l].
  cbv zeta.
  destruct (resolveStartTime (Now host) since) as [err|startTime] eqn:Hstart;
    simpl try; [intros H; now contradiction H | rewrite bind_ret_l].
  destruct (flags !! "session") as [sessionName|] eqn:Hsession; simpl try;
    [rewrite bind_ret_l | intros H; now contradiction H].
  destruct (flags !! "symbol") as [symbol|] eqn:Hsymbol; simpl try;
    [rewrite bind_ret_l | intros H; now contradiction H].
  intros _.
  exists configFile, userConfig, since, sessions, startTime, sessionName, symbol.
  repeat split; try assumption; try reflexivity.
  - intros ->. discriminate Hlen.
  - intros err Herr. rewrite Herr in Hstat.
    destruct (IsNotExist host err); [discriminate | reflexivity].
Qed.

Lemma RunE_calls_only_after_setup_witness :
  let flags := syncFlags "bbgo.yaml" "b" "" "" in
  let out := SyncCmd_RunE sampleHost flags [] in
  exists configFile userConfig since sessions startTime sessionName symbol,
    flags !! "config" = Some configFile /\ configFile <> "" /\
    (forall err, Stat sampleHost configFile = Some err ->
       IsNotExist sampleHost err = false) /\
    Load sampleHost configFile = inr userConfig /\
    flags !! "since" = Some since /\
    configureDB sampleHost = None /\
    AddExchangesFromConfig sampleHost userConfig = inr sessions /\
    resolveStartTime (Now sampleHost) since = inr startTime /\
    flags !! "session" = Some sessionName /\
    flags !! "symbol" = Some symbol /\
    out = syncSessions {| Sessions := sessions; TradeSync := Engine sampleHost;
                          rangeOrder := MapOrder sampleHost |}
            sessionName symbol startTime [].
Proof.
  apply (RunE_calls_only_after_setup sampleHost (syncFlags "bbgo.yaml" "b" "" "") []).
  vm_compute. discriminate.
Defined.

(** X15: an [os.Stat] error other than "does not exist" does not stop the
    command: it goes on to load the configuration and behaves as if the
    file had been inspected without error. *)
Theorem stat_error_other_than_missing_is_ignored {Config} (host : Host Config)
    flags configFile err :
  flags !! "config" = Some configFile ->
  Stat host configFile = Some err ->
  IsNotExist host err = false ->
  SyncCmd_RunE host flags = SyncCmd_RunE (statSucceeds host) flags.
Proof.
  intros Hconfig Hstat Hnot. unfold SyncCmd_RunE, GetString.
  rewrite Hconfig. simpl try. rewrite !bind_ret_l.
  destruct (Nat.eqb (String.length configFile) 0); [reflexivity|].
  rewrite Hstat, Hnot. reflexivity.
Qed.

Lemma stat_error_other_than_missing_is_ignored_witness :
  SyncCmd_RunE sampleHost (syncFlags "locked.yaml" "b" "" "")
    = SyncCmd_RunE (statSucceeds sampleHost) (syncFlags "locked.yaml" "b" "" "").
Proof.
  apply (stat_error_other_than_missing_is_ignored sampleHost
           (syncFlags "locked.yaml" "b" "" "") "locked.yaml" "permission denied");
    reflexivity.
Defined.

(** * Further properties of the KuCoin commands *)

(** A flag defined by [init] reads as the value given on the command
    line, or as its default. *)
Lemma parsed_lookup defaults given name d :
  defaults !! name = Some d ->
  KucoinOrders.parsed defaults given !! name = Some (default d (given !! name)).
Proof.
  intros Hd. unfold KucoinOrders.parsed. rewrite lookup_union, Hd.
  destruct (given !! name); reflexivity.
Qed.

Lemma nonEmpty_length s : Nat.eqb (String.length s) 0 = negb (nonEmpty s).
Proof. destruct s; reflexivity. Qed.

Lemma nonEmpty_false s : nonEmpty s = false <-> s = "".
Proof.
  unfold nonEmpty. destruct (String.eqb_spec s ""); simpl; split; congruence.
Qed.

(** What [orders] does once its two flags are read. *)
Lemma ordersCmd_run exchange flags symbol status tr0 :
  flags !! "symbol" = Some symbol ->
  flags !! "status" = Some status ->
  KucoinOrders.ordersCmd_RunE exchange flags tr0 =
    if nonEmpty symbol then
      let req := {| KucoinOrders.listSymbol := Some symbol;
                    KucoinOrders.listStatus :=
                      if nonEmpty status then Some status else None |} in
      let r := exchange tr0 req in
      (match r with inl e => inl e | inr _ => inr tt end,
       tr0 ++ [KucoinOrders.EvSent req r])
    else (inl "--symbol option is required", tr0).
Proof.
  intros Hsymbol Hstatus. unfold KucoinOrders.ordersCmd_RunE, GetString.
  rewrite Hsymbol. simpl try. rewrite bind_ret_l, nonEmpty_length.
  destruct (nonEmpty symbol); cbv beta iota delta [negb]; [|reflexivity].
  cbv zeta. rewrite Hstatus. cbv beta iota delta [try]. rewrite bind_ret_l.
  unfold bind, KucoinOrders.Do.
  destruct (nonEmpty status); simpl;
    destruct (exchange tr0 _); reflexivity.
Qed.

(** X16: the [orders] command, run with the flags [init] defines: without
    a [--symbol] it fails with "--symbol option is required" and sends
    nothing; otherwise it sends one list request for that symbol, with the
    status only when [--status] is not empty, and returns the error of the
    exchange, if any. *)
Theorem orders_command exchange given tr0 :
  let flags := KucoinOrders.parsed KucoinOrders.ordersCmdFlags given in
  let symbol := default "" (given !! "symbol") in
  let status := default "" (given !! "status") in
  let out := KucoinOrders.ordersCmd_RunE exchange flags tr0 in
  (symbol = "" -> out = (inl "--symbol option is required", tr0)) /\
  (symbol <> "" ->
     let req := {| KucoinOrders.listSymbol := Some symbol;
                   KucoinOrders.listStatus :=
                     if nonEmpty status then Some status else None |} in
     let r := exchange tr0 req in
     out = (match r with inl e => inl e | inr _ => inr tt end,
            tr0 ++ [KucoinOrders.EvSent req r])).
Proof.
  cbv zeta.
  rewrite (ordersCmd_run exchange _ (default "" (given !! "symbol"))
             (default "" (given !! "status")))
    by (apply parsed_lookup; reflexivity).
  split.
  - intros ->. reflexivity.
  - intros Hne. destruct (nonEmpty (default "" (given !! "symbol"))) eqn:Hs;
      [reflexivity|]. apply nonEmpty_false in Hs. contradiction.
Qed.

Lemma orders_command_witness :
  let given : gmap string string := <["symbol" := "LTC-USDT"]> ∅ in
  let flags := KucoinOrders.parsed KucoinOrders.ordersCmdFlags given in
  let symbol := default "" (given !! "symbol") in
  let status := default "" (given !! "status") in
  let out := KucoinOrders.ordersCmd_RunE accepts flags [] in
  (symbol = "" -> out = (inl "--symbol option is required", [])) /\
  (symbol <> "" ->
     let req := {| KucoinOrders.listSymbol := Some symbol;
                   KucoinOrders.listStatus :=
                     if nonEmpty status then Some status else None |} in
     let r := accepts [] req in
     out = (match r with inl e => inl e | inr _ => inr tt end,
            [] ++ [KucoinOrders.EvSent req r])).
Proof.
  exact (orders_command accepts (<["symbol" := "LTC-USDT"]> ∅) []).
Defined.

(** What [orders place] does once its five flags are read. *)
Lemma placeOrderCmd_run exchange flags orderType side symbol price size tr0 :
  flags !! "order-type" = Some orderType ->
  flags !! "side" = Some side ->
  flags !! "symbol" = Some symbol ->
  flags !! "price" = Some price ->
  flags !! "size" = Some size ->
  KucoinOrders.placeOrderCmd_RunE exchange flags tr0 =
    if nonEmpty symbol then
      let req := {| KucoinOrders.placeOrderType := Some orderType;
                    KucoinOrders.placeSide := Some side;
                    KucoinOrders.placeSymbol := Some symbol;
                    KucoinOrders.placePrice :=
                      if String.eqb orderType KucoinOrders.OrderTypeLimit
                      then Some price else None;
                    KucoinOrders.placeSize := Some size |} in
      let r := exchange tr0 req in
      (match r with inl e => inl e | inr _ => inr tt end,
       tr0 ++ [KucoinOrders.EvSent req r])
    else (inl "--symbol is required", tr0).
Proof.
  intros Htype Hside Hsymbol Hprice Hsize.
  unfold KucoinOrders.placeOrderCmd_RunE, GetString.
  rewrite Htype. simpl try. rewrite bind_ret_l. cbv zeta.
  rewrite Hside. simpl try. rewrite bind_ret_l.
  rewrite Hsymbol. simpl try. rewrite bind_ret_l, nonEmpty_length.
  destruct (nonEmpty symbol); cbv beta iota delta [negb]; [|reflexivity].
  cbv zeta. rewrite Hprice, Hsize. cbv beta iota delta [try].
  destruct (String.eqb orderType KucoinOrders.OrderTypeLimit).
  - rewrite !bind_ret_l. unfold bind, KucoinOrders.Do. simpl.
    destruct (exchange tr0 _); reflexivity.
  - assert (Hk : (if String.eqb orderType KucoinOrders.OrderTypeMarket
                  then @ret (KucoinOrders.Sent KucoinOrders.PlaceOrderRequest) _
                         (KucoinOrders.PlaceOrderRequest_Symbol
                            (KucoinOrders.PlaceOrderRequest_Side
                               (KucoinOrders.PlaceOrderRequest_OrderType
                                  KucoinOrders.NewPlaceOrderRequest orderType) side) symbol)
                  else ret (KucoinOrders.PlaceOrderRequest_Symbol
                            (KucoinOrders.PlaceOrderRequest_Side
                               (KucoinOrders.PlaceOrderRequest_OrderType
                                  KucoinOrders.NewPlaceOrderRequest orderType) side) symbol))
                 = ret (KucoinOrders.PlaceOrderRequest_Symbol
                            (KucoinOrders.PlaceOrderRequest_Side
                               (KucoinOrders.PlaceOrderRequest_OrderType
                                  KucoinOrders.NewPlaceOrderRequest orderType) side) symbol)).
    { destruct (String.eqb orderType KucoinOrders.OrderTypeMarket); reflexivity. }
    rewrite Hk, !bind_ret_l. unfold bind, KucoinOrders.Do. simpl.
    destruct (exchange tr0 _); reflexivity.
Qed.

(** X17: the [orders place] command, run with the flags [init] defines:
    without a [--symbol] it fails with "--symbol is required" and sends
    nothing; otherwise it sends one request carrying the order type, the
    side, the symbol and the size as given, empty or not, and the price
    exactly when the order type is limit; it returns the error of the
    exchange, if any. *)
Theorem place_order_command exchange given tr0 :
  let flags := KucoinOrders.parsed KucoinOrders.placeOrderCmdFlags given in
  let orderType := default KucoinOrders.OrderTypeLimit (given !! "order-type") in
  let side := default "" (given !! "side") in
  let symbol := default "" (given !! "symbol") in
  let price := default "" (given !! "price") in
  let size := default "" (given !! "size") in
  let out := KucoinOrders.placeOrderCmd_RunE exchange flags tr0 in
  (symbol = "" -> out = (inl "--symbol is required", tr0)) /\
  (symbol <> "" ->
     let req := {| KucoinOrders.placeOrderType := Some orderType;
                   KucoinOrders.placeSide := Some side;
                   KucoinOrders.placeSymbol := Some symbol;
                   KucoinOrders.placePrice :=
                     if String.eqb orderType KucoinOrders.OrderTypeLimit
                     then Some price else None;
                   KucoinOrders.placeSize := Some size |} in
     let r := exchange tr0 req in
     out = (match r with inl e => inl e | inr _ => inr tt end,
            tr0 ++ [KucoinOrders.EvSent req r])).
Proof.
  cbv zeta.
  rewrite (placeOrderCmd_run exchange _
             (default KucoinOrders.OrderTypeLimit (given !! "order-type"))
             (default "" (given !! "side")) (default "" (given !! "symbol"))
             (default "" (given !! "price")) (default "" (given !! "size")))
    by (apply parsed_lookup; reflexivity).
  split.
  - intros ->. reflexivity.
  - intros Hne. destruct (nonEmpty (default "" (given !! "symbol"))) eqn:Hs;
      [reflexivity|]. apply nonEmpty_false in Hs. contradiction.
Qed.

Lemma place_order_command_witness :
  let given : gmap string string :=
    <["symbol" := "LTC-USDT"]> (<["price" := "50"]> (<["size" := "1"]>
      (<["side" := "buy"]> ∅))) in
  let flags := KucoinOrders.parsed KucoinOrders.placeOrderCmdFlags given in
  let orderType := default KucoinOrders.OrderTypeLimit (given !! "order-type") in
  let side := default "" (given !! "side") in
  let symbol := default "" (given !! "symbol") in
  let price := default "" (given !! "price") in
  let size := default "" (given !! "size") in
  let out := KucoinOrders.placeOrderCmd_RunE accepts flags [] in
  (symbol = "" -> out = (inl "--symbol is required", [])) /\
  (symbol <> "" ->
     let req := {| KucoinOrders.placeOrderType := Some orderType;
                   KucoinOrders.placeSide := Some side;
                   KucoinOrders.placeSymbol := Some symbol;
                   KucoinOrders.placePrice :=
                     if String.eqb orderType KucoinOrders.OrderTypeLimit
                     then Some price else None;
                   KucoinOrders.placeSize := Some size |} in
     let r := accepts [] req in
     out = (match r with inl e => inl e | inr _ => inr tt end,
            [] ++ [KucoinOrders.EvSent req r])).
Proof.
  exact (place_order_command accepts
           (<["symbol" := "LTC-USDT"]> (<["price" := "50"]> (<["size" := "1"]>
              (<["side" := "buy"]> ∅)))) []).
Defined.

(** X18: a market order never carries a price: with [--order-type market]
    the request is sent without one, whatever [--price] says. *)
Theorem market_order_drops_price exchange flags side symbol price size tr0 :
  flags !! "order-type" = Some KucoinOrders.OrderTypeMarket ->
  flags !! "side" = Some side ->
  flags !! "symbol" = Some symbol ->
  flags !! "price" = Some price ->
  flags !! "size" = Some size ->
  symbol <> "" ->
  exists r,
    (KucoinOrders.placeOrderCmd_RunE exchange flags tr0).2
      = tr0 ++ [KucoinOrders.EvSent
                  {| KucoinOrders.placeOrderType := Some KucoinOrders.OrderTypeMarket;
                     KucoinOrders.placeSide := Some side;
                     KucoinOrders.placeSymbol := Some symbol;
                     KucoinOrders.placePrice := None;
                     KucoinOrders.placeSize := Some size |} r].
Proof.
  intros Htype Hside Hsymbol Hprice Hsize Hne.
  rewrite (placeOrderCmd_run exchange flags _ side symbol price size tr0 Htype Hside
             Hsymbol Hprice Hsize).
  destruct (nonEmpty symbol) eqn:Hs; [|apply nonEmpty_false in Hs; contradiction].
  eexists. reflexivity.
Qed.

Lemma market_order_drops_price_witness :
  exists r,
    (KucoinOrders.placeOrderCmd_RunE accepts
       (KucoinOrders.parsed KucoinOrders.placeOrderCmdFlags
          (<["order-type" := "market"]> (<["symbol" := "LTC-USDT"]>
             (<["price" := "50"]> (<["size" := "1"]> (<["side" := "buy"]> ∅)))))) []).2
      = [] ++ [KucoinOrders.EvSent
                 {| KucoinOrders.placeOrderType := Some KucoinOrders.OrderTypeMarket;
                    KucoinOrders.placeSide := Some "buy";
                    KucoinOrders.placeSymbol := Some "LTC-USDT";
                    KucoinOrders.placePrice := None;
                    KucoinOrders.placeSize := Some "1" |} r].
Proof.
  apply (market_order_drops_price accepts _ "buy" "LTC-USDT" "50" "1" []);
    try reflexivity.
  discriminate.
Defined.

(** What [orders cancel] does once its two flags are read. *)
Lemma cancelOrderCmd_run exchange flags oid cid tr0 :
  flags !! "order-id" = Some oid ->
  flags !! "client-order-id" = Some cid ->
  Kucoin.cancelOrderCmd_RunE exchange flags tr0 =
    if nonEmpty oid || nonEmpty cid then
      let req := if nonEmpty oid
                 then {| Kucoin.orderID := Some oid; Kucoin.clientOrderID := None |}
                 else {| Kucoin.orderID := None; Kucoin.clientOrderID := Some cid |} in
      let r := exchange tr0 req in
      (match r with inl e => inl e | inr _ => inr tt end, tr0 ++ [Kucoin.EvDo req r])
    else (inl "either order id or client order id is required", tr0).
Proof.
  intros Hoid Hcid. unfold Kucoin.cancelOrderCmd_RunE, GetString.
  rewrite Hoid, Hcid. cbv beta iota zeta delta [try]. rewrite !bind_ret_l.
  destruct (nonEmpty oid); [|destruct (nonEmpty cid)]; simpl orb; cbv iota;
    [| |reflexivity];
    rewrite bind_ret_l; unfold bind, Kucoin.Do; simpl;
    destruct (exchange tr0 _); reflexivity.
Qed.

(** X19: the [orders cancel] command, run with the flags [init] defines,
    sends at most one request; when it sends one, it returns the error of
    the exchange if the request failed and no error otherwise. *)
Theorem cancel_returns_exchange_error exchange given tr0 :
  let flags := KucoinOrders.parsed KucoinOrders.cancelOrderCmdFlags given in
  let out := Kucoin.cancelOrderCmd_RunE exchange flags tr0 in
  out = (inl "either order id or client order id is required", tr0) \/
  exists req,
    out.2 = tr0 ++ [Kucoin.EvDo req (exchange tr0 req)] /\
    out.1 = match exchange tr0 req with inl e => inl e | inr _ => inr tt end.
Proof.
  cbv zeta.
  rewrite (cancelOrderCmd_run exchange _ (default "" (given !! "order-id"))
             (default "" (given !! "client-order-id")))
    by (apply parsed_lookup; reflexivity).
  destruct (nonEmpty _ || nonEmpty _); [right | left; reflexivity].
  eexists. split; reflexivity.
Qed.

(** * Further properties of the FTX stream *)

Lemma step_calls s c :
  exists new, Ftx.calls (Ftx.wsService (Ftx.step s c)) = Ftx.calls (Ftx.wsService s) ++ new /\
    new = match c with
          | Ftx.CallSetPublicOnly => []
          | Ftx.CallConnect now =>
              let queued :=
                if Ftx.publicOnly s =? 0
                then [Ftx.WsSubscribe
                        (Ftx.newLoginRequest (Ftx.key (Ftx.wsService s))
                           (Ftx.secret (Ftx.wsService s)) now)]
                else [] in
              queued ++ [Ftx.WsConnect
                           (Ftx.dial (Ftx.wsService s)
                              (Ftx.calls (Ftx.wsService s) ++ queued))]
          | Ftx.CallSubscribe _ symbol => [Ftx.WsSubscribe (bookRequest symbol)]
          | Ftx.CallClose =>
              [Ftx.WsClose (Ftx.hangup (Ftx.wsService s) (Ftx.calls (Ftx.wsService s)))]
          end.
Proof.
  eexists. split; [|reflexivity]. destruct c; unfold Ftx.step.
  - simpl. now rewrite app_nil_r.
  - unfold Ftx.Connect. destruct (Ftx.publicOnly s =? 0); simpl.
    + now rewrite <- app_assoc.
    + now rewrite app_nil_r.
  - rewrite Subscribe_queues. reflexivity.
  - reflexivity.
Qed.

(** X20: every [Connect] call establishes the transport once, whether the
    stream is public-only or not and whether earlier attempts failed or
    not; no other call does. *)
Theorem every_connect_dials_once s cs :
  length (List.filter isDial (Ftx.calls (Ftx.wsService (Ftx.run s cs))))
    = (length (List.filter isDial (Ftx.calls (Ftx.wsService s)))
       + length (List.filter isConnect cs))%nat.
Proof.
  revert s. induction cs as [|c rest IH]; intros s; simpl; [lia|].
  rewrite IH. destruct (step_calls s c) as (new & -> & ->).
  rewrite List.filter_app, length_app.
  destruct c; simpl; try lia.
  destruct (Ftx.publicOnly s =? 0); simpl; lia.
Qed.

(** X21: on a stream that is not public-only every [Connect] call queues a
    further login request: after n [Connect] calls n login requests have
    been queued. *)
Theorem every_connect_logs_in_again s cs :
  Ftx.publicOnly s = 0 ->
  forallb (fun c => negb (Ftx.isSetPublicOnly c)) cs = true ->
  length (List.filter Ftx.isLogin (Ftx.calls (Ftx.wsService (Ftx.run s cs))))
    = (length (List.filter Ftx.isLogin (Ftx.calls (Ftx.wsService s)))
       + length (List.filter isConnect cs))%nat.
Proof.
  revert s. induction cs as [|c rest IH]; intros s Hpub Hcs; simpl; [lia|].
  simpl in Hcs. apply andb_prop in Hcs as [Hc Hrest].
  assert (Hpub' : Ftx.publicOnly (Ftx.step s c) = 0).
  { rewrite <- Hpub. apply (run_publicOnly s [c]). simpl. now rewrite Hc. }
  rewrite (IH _ Hpub' Hrest). destruct (step_calls s c) as (new & -> & ->).
  rewrite List.filter_app, length_app, Hpub.
  destruct c; simpl; lia.
Qed.

Lemma every_connect_logs_in_again_witness :
  length (List.filter Ftx.isLogin
            (Ftx.calls (Ftx.wsService
               (Ftx.run freshStream
                  [Ftx.CallConnect newYear2022; Ftx.CallClose;
                   Ftx.CallConnect newYear2022]))))
    = (length (List.filter Ftx.isLogin (Ftx.calls (Ftx.wsService freshStream)))
       + length (List.filter isConnect
                   [Ftx.CallConnect newYear2022; Ftx.CallClose;
                    Ftx.CallConnect newYear2022]))%nat.
Proof.
  apply (every_connect_logs_in_again freshStream
           [Ftx.CallConnect newYear2022; Ftx.CallClose; Ftx.CallConnect newYear2022]);
    reflexivity.
Defined.

(** X22: [Subscribe] calls queue their requests in call order, one
    order-book request per call, each for the symbol trimmed and
    uppercased, and leave the public-only flag as it is. *)
Theorem subscriptions_queue_in_order s (subs : list (Ftx.types.Channel * string)) :
  let s' := Ftx.run s (map (fun p => Ftx.CallSubscribe p.1 p.2) subs) in
  Ftx.calls (Ftx.wsService s')
    = Ftx.calls (Ftx.wsService s)
        ++ map (fun p => Ftx.WsSubscribe (bookRequest p.2)) subs /\
  Ftx.publicOnly s' = Ftx.publicOnly s.
Proof.
  revert s. induction subs as [|[ch sym] rest IH]; intros s; simpl.
  - now rewrite app_nil_r.
  - destruct (IH (Ftx.Subscribe s ch sym)) as [-> ->].
    rewrite Subscribe_queues. simpl. now rewrite <- app_assoc.
Qed.

Lemma logins_credentials_from key secret pre cs s :
  Ftx.key (Ftx.wsService s) = key ->
  Ftx.secret (Ftx.wsService s) = secret ->
  Forall (fun c => Ftx.isLogin c = true -> loginOf key secret pre c)
    (Ftx.calls (Ftx.wsService s)) ->
  Forall (fun c => Ftx.isLogin c = true -> loginOf key secret (pre ++ cs) c)
    (Ftx.calls (Ftx.wsService (Ftx.run s cs))).
Proof.
  revert pre s. induction cs as [|c rest IH]; intros pre s Hk Hs Hinv; simpl.
  - now rewrite app_nil_r.
  - replace (pre ++ c :: rest) with ((pre ++ [c]) ++ rest)
      by now rewrite <- app_assoc.
    destruct (step_service s c) as (Hk' & Hs' & _).
    apply IH; [congruence | congruence |].
    destruct (step_calls s c) as (new & -> & ->).
    apply Forall_app. split.
    + eapply Forall_impl; [exact Hinv|]. intros w Hw Hlogin.
      destruct (Hw Hlogin) as (now & Hin & ->). exists now.
      split; [apply elem_of_app; now left | reflexivity].
    + destruct c; simpl; repeat constructor; try discriminate.
      destruct (Ftx.publicOnly s =? 0); simpl; repeat constructor; try discriminate.
      intros _. exists now. rewrite Hk, Hs.
      split; [apply elem_of_app; right; now left | reflexivity].
Qed.

(** X23: every login request a stream queues carries the key and the
    secret the stream was created with, and the time of one of its
    [Connect] calls. *)
Theorem logins_carry_stream_credentials key secret dial hangup cs :
  Forall (fun c => Ftx.isLogin c = true -> loginOf key secret cs c)
    (Ftx.calls (Ftx.wsService (Ftx.run (Ftx.NewStream key secret dial hangup) cs))).
Proof.
  apply (logins_credentials_from key secret [] cs); [reflexivity | reflexivity |].
  constructor.
Qed.

(** * The orchestrator as a whole *)

Lemma adds_syncAllSessions P environ sessions symbol symbols startTime :
  (forall s, s ∈ sessions -> P (EvInit (Name s) (InitError s))) ->
  (forall s sym, s ∈ sessions -> adds P (syncSessionSymbol environ s sym startTime)) ->
  adds P (syncAllSessions environ sessions symbol symbols startTime).
Proof.
  revert symbols. induction sessions as [|session rest IH];
    intros symbols HInit Hsync; simpl; [apply adds_ret|].
  apply adds_bind; [apply adds_symbolsOrDiscover, HInit; now left|].
  intros syms. apply adds_bind.
  { apply adds_forRange. intros s. apply Hsync. now left. }
  intros _. apply adds_bind; [apply Hsync; now left|].
  intros _. apply IH; intros s; intros; [apply HInit | apply Hsync]; now right.
Qed.

Lemma Session_configured environ sessionName session :
  Session environ sessionName = Some session -> session ∈ Sessions environ.
Proof.
  unfold Session. intros H. apply find_some in H as [H _]. now apply list_elem_of_In.
Qed.

(** Every event of a run satisfies [P] when the calls on every configured
    session do. *)
Lemma adds_syncSessions P environ sessionName symbol startTime :
  (forall s, s ∈ Sessions environ -> P (EvInit (Name s) (InitError s))) ->
  (forall s sym, s ∈ Sessions environ ->
     adds P (syncSessionSymbol environ s sym startTime)) ->
  adds P (syncSessions environ sessionName symbol startTime).
Proof.
  intros HInit Hsync.
  destruct (nonEmpty sessionName) eqn:Hname.
  - destruct (Session environ sessionName) as [session|] eqn:Hfound.
    + pose proof (Session_configured _ _ _ Hfound) as Hin.
      apply (adds_named_session P environ sessionName symbol startTime session);
        auto.
    + unfold syncSessions. rewrite Hname, Hfound. intros tr0. exists [].
      split; [simpl; now rewrite app_nil_r | constructor].
  - unfold syncSessions. rewrite Hname. now apply adds_syncAllSessions.
Qed.

(** X12: every engine call of a run, for every session and symbol, is
    made with the one start time the orchestrator was given. *)
Theorem one_start_time_per_run environ sessionName symbol startTime :
  Forall (startsAt startTime) (syncSessions environ sessionName symbol startTime []).2.
Proof.
  destruct (adds_syncSessions (startsAt startTime) environ sessionName symbol startTime)
    with (tr0 := @nil Event) as (new & -> & Hnew).
  - intros s _. exact I.
  - intros s sym _. apply adds_syncSessionSymbol; intros r; reflexivity.
  - exact Hnew.
Qed.

(** X13: every call of a run is on a configured session: the command
    initialises only configured sessions and passes only their exchange
    handles to the sync engine. *)
Theorem only_configured_sessions environ sessionName symbol startTime :
  Forall (configured environ) (syncSessions environ sessionName symbol startTime []).2.
Proof.
  destruct (adds_syncSessions (configured environ) environ sessionName symbol startTime)
    with (tr0 := @nil Event) as (new & -> & Hnew).
  - intros s Hs. exists s. split; [exact Hs | reflexivity].
  - intros s sym Hs. apply adds_syncSessionSymbol; intros r; exists s;
      (split; [exact Hs | reflexivity]).
  - exact Hnew.
Qed.

Lemma failedWith_engineFailed startTime pair e failing tr :
  failedWith startTime pair e failing ->
  failing `suffix_of` tr ->
  existsb engineFailed tr = true.
Proof.
  intros Hf [k ->]. rewrite existsb_app.
  destruct Hf as [-> | ->]; simpl; apply orb_true_r.
Qed.

(** X6: when the orchestrator returns an error although no engine call
    failed (a session's [Init] failed, or the named session is unknown),
    the engine calls on record are complete pairs only: the trade sync and
    the order sync of every pair processed before the error, all without
    error. *)
Theorem other_errors_leave_complete_pairs environ sessionName symbol startTime e :
  let out := syncSessions environ sessionName symbol startTime [] in
  out.1 = inl e ->
  existsb engineFailed out.2 = false ->
  engineCalls out.2
    = flat_map (completed startTime) (pairSequence environ sessionName symbol).
Proof.
  intros out Herr Hnofail.
  pose proof (syncs_syncSessions environ sessionName symbol startTime []) as H.
  fold out in H. destruct out as [[e'|[]] tr]; simpl in *; [|discriminate].
  destruct H as [[_ Hc]|[N (pair & failing & _ & Hf & _ & Hsuf)]]; [exact Hc|].
  rewrite (failedWith_engineFailed _ _ _ _ _ Hf Hsuf) in Hnofail. discriminate.
Qed.

Lemma other_errors_leave_complete_pairs_witness :
  let out := syncSessions (cryptoThenDown engineOk) "" "" newYear2022 [] in
  engineCalls out.2
    = flat_map (completed newYear2022) (pairSequence (cryptoThenDown engineOk) "" "").
Proof.
  apply (other_errors_leave_complete_pairs (cryptoThenDown engineOk) "" "" newYear2022
           "connection refused"); reflexivity.
Defined.
